(** * Verification of [formatEmailText] / [validateEmail] (src/api/parse-email.js)

    Shallow embedding of the first handler of [src/api/parse-email.js]
    (lines 1-80): the dictated-email normalizer [formatEmailText] and the
    validator [validateEmail].

    Modelling choices.
    - A JS string is modelled as [list ascii]; the model covers inputs made
      of ASCII characters.  On ASCII, [String.prototype.normalize("NFD")]
      is the identity and no character lies in U+0300-U+036F, so
      [removeDiacritics] is the identity on this character set.
    - JS whitespace ([trim], [/\s/]) restricted to ASCII is
      TAB, LF, VT, FF, CR and SPACE.
    - The JS object [MAP_SINGLE] is looked up with [MAP_SINGLE[t]], which
      also finds the properties inherited from [Object.prototype]; the
      model keeps that prototype chain ([Object_prototype]).
    - Each regular expression the code uses is modelled by a function
      computing the language it matches (test) or the result of the global
      replacement (replace with the [g] flag, left-to-right, non-overlapping).
    - Confidence values are the JS number literals of the code, as [Q]. *)

From Stdlib Require Import List Ascii String Arith Lia Bool QArith Btauto.
Import ListNotations.
Open Scope nat_scope.

(** ** JS strings and characters *)

Definition jsstr := list ascii.

(** String literal of the source. *)
Definition js (s : string) : jsstr := list_ascii_of_string s.

Definition str_eqb (a b : jsstr) : bool :=
  if list_eq_dec ascii_dec a b then true else false.

Definition code (c : ascii) : nat := nat_of_ascii c.

Definition in_range (lo hi : nat) (c : ascii) : bool :=
  (lo <=? code c) && (code c <=? hi).

Definition is_lower (c : ascii) : bool := in_range 97 122 c.
Definition is_upper (c : ascii) : bool := in_range 65 90 c.
Definition is_digit (c : ascii) : bool := in_range 48 57 c.

Definition dot : ascii := "."%char.
Definition at_sign : ascii := "@"%char.

(** JS [WhiteSpace] / [LineTerminator] on ASCII: the set of [trim] and [\s]. *)
Definition is_js_space (c : ascii) : bool :=
  match code c with
  | 9 | 10 | 11 | 12 | 13 | 32 => true
  | _ => false
  end.

(** ** Canonicalizer (line 13): [removeDiacritics(input.trim().toLowerCase())] *)

Fixpoint drop_while (p : ascii -> bool) (s : jsstr) : jsstr :=
  match s with
  | [] => []
  | c :: r => if p c then drop_while p r else s
  end.

(** [String.prototype.trim] *)
Definition trim (s : jsstr) : jsstr :=
  rev (drop_while is_js_space (rev (drop_while is_js_space s))).

Definition lower_char (c : ascii) : ascii :=
  if is_upper c then ascii_of_nat (code c + 32) else c.

(** [String.prototype.toLowerCase] *)
Definition toLowerCase (s : jsstr) : jsstr := map lower_char s.

(** [s.normalize("NFD").replace(/[\u0300-\u036f]/g, "")]: on ASCII input NFD
    changes nothing and there is no combining mark to remove. *)
Definition removeDiacritics (s : jsstr) : jsstr := s.

(** The inputs on which the identity above is [removeDiacritics] (and
    [lower_char] is [toLowerCase]): every character is 7-bit ASCII.  A
    Latin-1 letter such as U+00F3 is decomposed by NFD and loses its
    accent in the source. *)
Definition is_ascii_str (s : jsstr) : bool :=
  forallb (fun c => Nat.ltb (nat_of_ascii c) 128) s.

(** ** Tokenizer (line 14): [s.split(/\s+/).filter(Boolean)] *)

(** [split(/\s+/)]: every maximal run of whitespace is one separator. *)
Fixpoint split_ws_aux (cur : jsstr) (prev_ws : bool) (s : jsstr) : list jsstr :=
  match s with
  | [] => [rev cur]
  | c :: r =>
      if is_js_space c then
        if prev_ws then split_ws_aux cur true r
        else rev cur :: split_ws_aux [] true r
      else split_ws_aux (c :: cur) false r
  end.

Definition split_ws (s : jsstr) : list jsstr := split_ws_aux [] false s.

(** [filter(Boolean)]: the empty string is falsy. *)
Definition truthy_str (s : jsstr) : bool :=
  match s with [] => false | _ => true end.

Definition tokenize (s : jsstr) : list jsstr := filter truthy_str (split_ws s).

(** ** Vocabulary tables (lines 16-24) *)

Definition IGNORE : list jsstr :=
  map js ["espacio"; "espacios"; "todo"; "junto"; "todojunto"; "sin"; "y";
          "con"; "la"; "el"; "los"; "las"; "por"; "favor"; "porfavor"]%string.

Definition set_has (set : list jsstr) (t : jsstr) : bool :=
  existsb (str_eqb t) set.

(** A JS value as read out of [MAP_SINGLE]: a string, or an object (a
    function or [Object.prototype]) given by its string conversion. *)
Inductive jsval :=
| JSStr (s : jsstr)
| JSObj (toString : jsstr).

Definition truthy (v : jsval) : bool :=
  match v with JSStr s => truthy_str s | JSObj _ => true end.

(** [out += v]: the string conversion of [v]. *)
Definition to_str (v : jsval) : jsstr :=
  match v with JSStr s => s | JSObj s => s end.

(** Own properties of the object literal [MAP_SINGLE]. *)
Definition MAP_SINGLE : list (jsstr * jsstr) :=
  map (fun kv => (js (fst kv), js (snd kv)))
  [("@", "@"); ("arroba", "@"); ("at", "@");
   ("punto", "."); ("dot", "."); ("puntos", ".");
   ("guion", "-"); ("guionmedio", "-"); ("guion-medio", "-"); ("dash", "-");
   ("hyphen", "-");
   ("guionbajo", "_"); ("underscore", "_");
   ("mas", "+"); ("plus", "+")]%string.

Definition native_fn (name : string) : jsval :=
  JSObj (js ("function " ++ name ++ "() { [native code] }")).

(** Properties every object literal inherits from [Object.prototype]. *)
Definition Object_prototype : list (jsstr * jsval) :=
  map (fun kv => (js (fst kv), snd kv))
  [("constructor", native_fn "Object");
   ("__proto__", JSObj (js "[object Object]"));
   ("__defineGetter__", native_fn "__defineGetter__");
   ("__defineSetter__", native_fn "__defineSetter__");
   ("hasOwnProperty", native_fn "hasOwnProperty");
   ("__lookupGetter__", native_fn "__lookupGetter__");
   ("__lookupSetter__", native_fn "__lookupSetter__");
   ("isPrototypeOf", native_fn "isPrototypeOf");
   ("propertyIsEnumerable", native_fn "propertyIsEnumerable");
   ("toString", native_fn "toString");
   ("valueOf", native_fn "valueOf");
   ("toLocaleString", native_fn "toLocaleString")]%string.

Fixpoint assoc {V} (k : jsstr) (l : list (jsstr * V)) : option V :=
  match l with
  | [] => None
  | (k', v) :: r => if str_eqb k k' then Some v else assoc k r
  end.

(** [MAP_SINGLE[t]]: own property first, then the prototype chain;
    [None] is [undefined]. *)
Definition map_single_get (t : jsstr) : option jsval :=
  match assoc t MAP_SINGLE with
  | Some v => Some (JSStr v)
  | None => assoc t Object_prototype
  end.

(** ** Token rewriter (lines 26-51) *)

Definition is_email_char (c : ascii) : bool :=
  is_lower c || is_digit c ||
  match code c with 46 | 95 | 43 | 45 => true | _ => false end.

(** [t.replace(/[^a-z0-9._+-]/g, "")] *)
Definition strip_invalid (t : jsstr) : jsstr := filter is_email_char t.

Definition is_symbol_token (t : jsstr) : bool :=
  set_has (map js ["."; "_"; "-"; "+"]%string) t.

Definition is_at_sym (v : jsval) : bool :=
  match v with JSStr s => str_eqb s (js "@") | JSObj _ => false end.

(** Rules 3-5 of the loop body (lines 40-50) for token [t]: the text
    appended to [out] and the new value of [seenAt]. *)
Definition single_step (t : jsstr) (seenAt : bool) : jsstr * bool :=
  match map_single_get t with
  | Some sym =>
      if truthy sym then
        if is_at_sym sym then
          (if negb seenAt then (js "@", true) else ([], seenAt))
        else (to_str sym, seenAt)
      else if is_symbol_token t then (t, seenAt) else (strip_invalid t, seenAt)
  | None =>
      if is_symbol_token t then (t, seenAt) else (strip_invalid t, seenAt)
  end.

(** The [while] loop (lines 28-51): [toks] is [rawTokens] from index [i] on. *)
Fixpoint rewrite_tokens (toks : list jsstr) (out : jsstr) (seenAt : bool) : jsstr :=
  match toks with
  | [] => out
  | t :: rest =>
      if set_has IGNORE t then rewrite_tokens rest out seenAt
      else
      match rest with
      | next :: rest' =>
          if str_eqb t (js "guion") && str_eqb next (js "bajo") then
            rewrite_tokens rest' (out ++ js "_") seenAt
          else if str_eqb t (js "guion") &&
                  (str_eqb next (js "medio") || str_eqb next (js "alto")) then
            rewrite_tokens rest' (out ++ js "-") seenAt
          else
            let (e, seenAt') := single_step t seenAt in
            rewrite_tokens rest (out ++ e) seenAt'
      | [] =>
          let (e, seenAt') := single_step t seenAt in
          rewrite_tokens rest (out ++ e) seenAt'
      end
  end.

(** ** Cleanup (lines 53-63) *)

Definition is_dot (c : ascii) : bool := Ascii.eqb c dot.
Definition is_at (c : ascii) : bool := Ascii.eqb c at_sign.

(** [replace(/\.+/g, ".")]: each maximal run of dots becomes one dot;
    [in_run] says the previous character was a dot of the current run. *)
Fixpoint collapse_dots_aux (in_run : bool) (s : jsstr) : jsstr :=
  match s with
  | [] => []
  | c :: r =>
      if is_dot c then
        if in_run then collapse_dots_aux true r else c :: collapse_dots_aux true r
      else c :: collapse_dots_aux false r
  end.

Definition collapse_dots (s : jsstr) : jsstr := collapse_dots_aux false s.

(** [replace(/\.@/g, "@")] *)
Fixpoint replace_dot_at (s : jsstr) : jsstr :=
  match s with
  | c :: ((c' :: r) as r0) =>
      if is_dot c && is_at c' then at_sign :: replace_dot_at r
      else c :: replace_dot_at r0
  | _ => s
  end.

(** [replace(/@\.?/g, "@")] *)
Fixpoint replace_at_dot (s : jsstr) : jsstr :=
  match s with
  | [] => []
  | c :: r =>
      if is_at c then
        match r with
        | c' :: r' => if is_dot c' then at_sign :: replace_at_dot r'
                      else at_sign :: replace_at_dot r
        | [] => [at_sign]
        end
      else c :: replace_at_dot r
  end.

(** [replace(/^\.+|\.+$/g, "")]: drops the leading and the trailing run
    of dots. *)
Definition strip_dots (s : jsstr) : jsstr :=
  rev (drop_while is_dot (rev (drop_while is_dot s))).

(** [s.includes(c)] for a one-character [c] *)
Definition includes (c : ascii) (s : jsstr) : bool := existsb (Ascii.eqb c) s.

(** [s.split(c)] for a one-character separator [c] *)
Fixpoint split_on_aux (sep : ascii) (cur : jsstr) (s : jsstr) : list jsstr :=
  match s with
  | [] => [rev cur]
  | c :: r =>
      if Ascii.eqb c sep then rev cur :: split_on_aux sep [] r
      else split_on_aux sep (c :: cur) r
  end.

(** [s.split(sep, limit)] *)
Definition split_limit (sep : ascii) (limit : nat) (s : jsstr) : list jsstr :=
  firstn limit (split_on_aux sep [] s).

(** [(x || "")] for an array element [x] that may be [undefined] *)
Definition or_empty (x : option jsstr) : jsstr :=
  match x with Some v => v | None => [] end.

(** The cleanup of lines 53-63, from the rewriter output to the candidate. *)
Definition cleanup (out0 : jsstr) : jsstr :=
  let out := replace_at_dot (replace_dot_at (collapse_dots out0)) in
  if includes at_sign out then
    let parts := split_limit at_sign 2 out in
    let cleanLocal := strip_dots (or_empty (nth_error parts 0)) in
    let cleanDomain := strip_dots (or_empty (nth_error parts 1)) in
    let cleanDomain := collapse_dots cleanDomain in
    cleanLocal ++ [at_sign] ++ cleanDomain
  else strip_dots out.

(** ** Validator (lines 69-80) *)

(** [s.indexOf(c)]; [None] is [-1]. *)
Fixpoint indexOf (c : ascii) (s : jsstr) : option nat :=
  match s with
  | [] => None
  | x :: r => if Ascii.eqb x c then Some 0
              else option_map S (indexOf c r)
  end.

(** [s.slice(a)] and [s.slice(0, b)] *)
Definition slice_from (a : nat) (s : jsstr) : jsstr := skipn a s.
Definition slice_to (b : nat) (s : jsstr) : jsstr := firstn b s.

(** [/^[a-z0-9._+-]+$/.test(local)] *)
Definition local_regex_test (l : jsstr) : bool :=
  truthy_str l && forallb is_email_char l.

(** [[a-z0-9.-]] and [[a-z]] under the [i] flag *)
Definition is_domain_char_ci (c : ascii) : bool :=
  is_lower c || is_upper c || is_digit c || is_dot c || Ascii.eqb c "-"%char.
Definition is_alpha_ci (c : ascii) : bool := is_lower c || is_upper c.

(** All ways of cutting [s] in two. *)
Definition cuts (s : jsstr) : list (jsstr * jsstr) :=
  map (fun k => (firstn k s, skipn k s)) (seq 0 (S (List.length s))).

(** [/^[a-z0-9.-]+\.[a-z]{2,}$/i.test(d)]: [d] is [p ++ "." ++ q] with [p]
    a non-empty word over [[a-z0-9.-]] and [q] a word of at least two
    letters (the language of the anchored pattern). *)
Definition domain_regex_test (d : jsstr) : bool :=
  existsb (fun pq =>
    match snd pq with
    | c :: q =>
        truthy_str (fst pq) && forallb is_domain_char_ci (fst pq) &&
        is_dot c && (2 <=? List.length q) && forallb is_alpha_ci q
    | [] => false
    end) (cuts d).

(** [s.includes("..")] *)
Fixpoint includes_dotdot (s : jsstr) : bool :=
  match s with
  | c :: ((c' :: _) as r) => (is_dot c && is_dot c') || includes_dotdot r
  | _ => false
  end.

Definition localOk (local : jsstr) : bool :=
  local_regex_test local && (0 <? List.length local).

Definition domainOk (domain : jsstr) : bool :=
  domain_regex_test domain && negb (includes_dotdot domain).

Record validation := {
  v_isValid : bool;
  v_confidence : Q;
  v_local : jsstr;
  v_domain : jsstr
}.

Definition validateEmail (email : jsstr) : validation :=
  match indexOf at_sign email with
  | None => {| v_isValid := false; v_confidence := 0.4%Q; v_local := []; v_domain := [] |}
  | Some at_ =>
      let local := slice_to at_ email in
      let domain := slice_from (at_ + 1) email in
      let confidence :=
        if localOk local && domainOk domain then 0.99%Q
        else if localOk local && (0 <? List.length domain) then 0.8%Q
        else 0.6%Q in
      {| v_isValid := localOk local && domainOk domain; v_confidence := confidence;
         v_local := local; v_domain := domain |}
  end.

(** ** Orchestration: [formatEmailText] (lines 9-67) *)

(** The argument as a JS value. *)
Inductive jsinput :=
| JUndefined
| JNull
| JBoolean (b : bool)
| JNumber (n : Q)
| JString (s : jsstr)
| JObject.

(** The two shapes of object the function returns. *)
Inductive result :=
| ErrorResult (email : jsstr) (isValid : bool) (confidence : Q) (reason : jsstr)
| NormalizedResult (input : jsstr) (email : jsstr) (isValid : bool)
    (confidence : Q) (local : jsstr) (domain : jsstr).

Definition canonicalize (input : jsstr) : jsstr :=
  removeDiacritics (toLowerCase (trim input)).

Definition formatEmailText (v : jsinput) : result :=
  match v with
  | JString input =>
      if negb (truthy_str input) then ErrorResult [] false 0.0%Q (js "Empty input")
      else
        let s := canonicalize input in
        let rawTokens := tokenize s in
        let out := cleanup (rewrite_tokens rawTokens [] false) in
        let r := validateEmail out in
        NormalizedResult input out r.(v_isValid) r.(v_confidence) r.(v_local) r.(v_domain)
  | _ => ErrorResult [] false 0.0%Q (js "Empty input")
  end.

Definition email_of (r : result) : jsstr :=
  match r with
  | ErrorResult e _ _ _ => e
  | NormalizedResult _ e _ _ _ _ => e
  end.

Definition confidence_of (r : result) : Q :=
  match r with
  | ErrorResult _ _ c _ => c
  | NormalizedResult _ _ _ c _ _ => c
  end.

(** The [domain] field; the error-shaped result has none. *)
Definition domain_of (r : result) : option jsstr :=
  match r with
  | ErrorResult _ _ _ _ => None
  | NormalizedResult _ _ _ _ _ d => Some d
  end.

(** ** Reading of the domain pattern in the spec (section 4.5)

    "one or more groups of [a-z0-9-] separated by single dots, ending in a
    final dot and a 2+ letter top-level label (case-insensitive) and no
    [..]". *)

Definition is_group_char_ci (c : ascii) : bool :=
  is_lower c || is_upper c || is_digit c || Ascii.eqb c "-"%char.

Inductive dotted_groups : jsstr -> Prop :=
| dg_one g :
    g <> [] -> forallb is_group_char_ci g = true -> dotted_groups g
| dg_cons g r :
    g <> [] -> forallb is_group_char_ci g = true -> dotted_groups r ->
    dotted_groups (g ++ dot :: r).

Definition tld_ok (t : jsstr) : Prop :=
  2 <= List.length t /\ forallb is_alpha_ci t = true.

Definition spec_domain_shape (d : jsstr) : Prop :=
  exists gs t, d = gs ++ dot :: t /\ dotted_groups gs /\ tld_ok t /\
               includes_dotdot d = false.

(** The same shape, where the domain may also begin with one dot. *)
Definition domain_shape_lead_dot (d : jsstr) : Prop :=
  exists lead gs t, (lead = [] \/ lead = [dot]) /\ d = lead ++ gs ++ dot :: t /\
    dotted_groups gs /\ tld_ok t /\ includes_dotdot d = false.

(** ** The token loop and the clean-ups, shared by the variants

    [src/api/parse-email.js] holds four copies of the normalizer: lines
    9-80, 127-241, 295-429 and 480-549.  Their token loops differ only in
    the vocabulary tables; the copy of lines 295-429 is the code of lines
    9-80 again and is modelled by [formatEmailText]. *)

(** [MAP_SINGLE[t]] for a table [ms] with own properties. *)
Definition map_single_get_with (ms : list (jsstr * jsstr)) (t : jsstr) : option jsval :=
  match assoc t ms with
  | Some v => Some (JSStr v)
  | None => assoc t Object_prototype
  end.

Definition single_step_with (ms : list (jsstr * jsstr)) (t : jsstr) (seenAt : bool)
  : jsstr * bool :=
  match map_single_get_with ms t with
  | Some sym =>
      if truthy sym then
        if is_at_sym sym then
          (if negb seenAt then (js "@", true) else ([], seenAt))
        else (to_str sym, seenAt)
      else if is_symbol_token t then (t, seenAt) else (strip_invalid t, seenAt)
  | None =>
      if is_symbol_token t then (t, seenAt) else (strip_invalid t, seenAt)
  end.

(** The [while] loop over tables [ign] and [ms]; returns [out] and the
    final [seenAt] (read after the loop at line 191). *)
Fixpoint rewrite_loop (ign : list jsstr) (ms : list (jsstr * jsstr))
    (toks : list jsstr) (out : jsstr) (seenAt : bool) : jsstr * bool :=
  match toks with
  | [] => (out, seenAt)
  | t :: rest =>
      if set_has ign t then rewrite_loop ign ms rest out seenAt
      else
      match rest with
      | next :: rest' =>
          if str_eqb t (js "guion") && str_eqb next (js "bajo") then
            rewrite_loop ign ms rest' (out ++ js "_") seenAt
          else if str_eqb t (js "guion") &&
                  (str_eqb next (js "medio") || str_eqb next (js "alto")) then
            rewrite_loop ign ms rest' (out ++ js "-") seenAt
          else
            let (e, seenAt') := single_step_with ms t seenAt in
            rewrite_loop ign ms rest (out ++ e) seenAt'
      | [] =>
          let (e, seenAt') := single_step_with ms t seenAt in
          rewrite_loop ign ms rest (out ++ e) seenAt'
      end
  end.

(** [out.replace(/\.+/g, ".").replace(/\.@/g, "@").replace(/@\.?/g, "@")] *)
Definition pre_cleanup (out : jsstr) : jsstr :=
  replace_at_dot (replace_dot_at (collapse_dots out)).

(** The per-part trimming (lines 55-63, 211-219, 379-391, 524-532). *)
Definition finalize (out : jsstr) : jsstr :=
  if includes at_sign out then
    let parts := split_limit at_sign 2 out in
    let cleanLocal := strip_dots (or_empty (nth_error parts 0)) in
    let cleanDomain := strip_dots (or_empty (nth_error parts 1)) in
    let cleanDomain := collapse_dots cleanDomain in
    cleanLocal ++ [at_sign] ++ cleanDomain
  else strip_dots out.

(** ** Variant of lines 127-241: more vocabulary and the "@" fallback *)

Definition IGNORE2 : list jsstr :=
  map js ["espacio"; "espacios"; "todo"; "junto"; "todojunto"; "sin";
          "y"; "con"; "la"; "el"; "los"; "las"; "por"; "favor"; "porfavor"; "porfa"]%string.

Definition MAP_SINGLE2 : list (jsstr * jsstr) :=
  map (fun kv => (js (fst kv), js (snd kv)))
  [("@", "@");
   ("arroba", "@"); ("aroba", "@"); ("arrova", "@"); ("arzroba", "@"); ("at", "@");
   ("punto", "."); ("puntos", "."); ("dot", ".");
   ("guion", "-"); ("guionmedio", "-"); ("guion-medio", "-"); ("dash", "-");
   ("hyphen", "-");
   ("guionbajo", "_"); ("underscore", "_");
   ("mas", "+"); ("plus", "+")]%string.

(** JS [LineTerminator] on ASCII: what [.] does not match. *)
Definition is_line_terminator (c : ascii) : bool :=
  match code c with 10 | 13 => true | _ => false end.

(** [[a-z]{2,}] under the [i] flag *)
Definition letters2 (w : jsstr) : bool :=
  (2 <=? List.length w) && forallb is_alpha_ci w.

(** [[a-z]{2,}(?:\.[a-z]{2,})?] under the [i] flag *)
Definition tld_tail (w : jsstr) : bool :=
  letters2 w ||
  existsb (fun pq =>
    match snd pq with
    | c :: q => letters2 (fst pq) && is_dot c && letters2 q
    | [] => false
    end) (cuts w).

(** The language of group 2, [[a-z0-9-]+\.[a-z]{2,}(?:\.[a-z]{2,})?], with [i]. *)
Definition domain_suffix (w : jsstr) : bool :=
  existsb (fun pq =>
    match snd pq with
    | c :: q =>
        truthy_str (fst pq) && forallb is_group_char_ci (fst pq) && is_dot c && tld_tail q
    | [] => false
    end) (cuts w).

(** From a fixed start, [(.*?)] grows one character at a time (never over a
    line terminator) until group 2 matches the whole rest of the string. *)
Fixpoint lazy_scan (pre : jsstr) (rest : jsstr) : option (jsstr * jsstr) :=
  if domain_suffix rest then Some (rev pre, rest)
  else
    match rest with
    | [] => None
    | c :: r => if is_line_terminator c then None else lazy_scan (c :: pre) r
    end.

(** [out.match(/(.*?)([a-z0-9-]+\.[a-z]{2,}(?:\.[a-z]{2,})?)$/i)]: the first
    start position with a match gives [Some (m[1], m[2])]; [None] is [null]. *)
Fixpoint fallback_match (s : jsstr) : option (jsstr * jsstr) :=
  match lazy_scan [] s with
  | Some m => Some m
  | None => match s with [] => None | _ :: r => fallback_match r end
  end.

(** [[\.\-_+]] *)
Definition is_sep_sym (c : ascii) : bool :=
  match code c with 46 | 45 | 95 | 43 => true | _ => false end.

(** One "Estrategia" block (lines 192-197, 201-206). *)
Definition fallback_strategy (out : jsstr) : jsstr :=
  match fallback_match out with
  | Some (m1, m2) =>
      let local := rev (drop_while is_sep_sym (rev m1)) in
      let domain := drop_while is_sep_sym m2 in
      if truthy_str local && truthy_str domain then local ++ [at_sign] ++ domain
      else out
  | None => out
  end.

Definition formatEmailText2 (v : jsinput) : result :=
  match v with
  | JString input =>
      if negb (truthy_str input) then ErrorResult [] false 0.0%Q (js "Empty input")
      else
        let s := canonicalize input in
        let rawTokens := tokenize s in
        let (out0, seenAt) := rewrite_loop IGNORE2 MAP_SINGLE2 rawTokens [] false in
        let out := pre_cleanup out0 in
        let out :=
          if negb (includes at_sign out) then
            let out := if seenAt then fallback_strategy out else out in
            if negb (includes at_sign out) then fallback_strategy out else out
          else out in
        let out := finalize out in
        let r := validateEmail out in
        NormalizedResult input out r.(v_isValid) r.(v_confidence) r.(v_local) r.(v_domain)
  | _ => ErrorResult [] false 0.0%Q (js "Empty input")
  end.

(** ** Variant of lines 480-549 (Next.js route) *)

Definition MAP_SINGLE4 : list (jsstr * jsstr) :=
  map (fun kv => (js (fst kv), js (snd kv)))
  [("@", "@"); ("arroba", "@"); ("arzroba", "@"); ("aroba", "@"); ("at", "@");
   ("punto", "."); ("puntos", "."); ("dot", ".");
   ("guion", "-"); ("guionmedio", "-"); ("guion-medio", "-"); ("dash", "-");
   ("hyphen", "-");
   ("guionbajo", "_"); ("underscore", "_");
   ("mas", "+"); ("plus", "+")]%string.

Definition formatEmailText4 (v : jsinput) : result :=
  match v with
  | JString input =>
      if negb (truthy_str input) then ErrorResult [] false 0.0%Q (js "Empty input")
      else
        let s := canonicalize input in
        let rawTokens := tokenize s in
        let out := finalize (pre_cleanup (fst (rewrite_loop IGNORE MAP_SINGLE4 rawTokens [] false))) in
        let r := validateEmail out in
        NormalizedResult input out r.(v_isValid) r.(v_confidence) r.(v_local) r.(v_domain)
  | _ => ErrorResult [] false 0.0%Q (js "Empty input")
  end.

(** ** HTTP handlers

    A request is given by its method, the [text] member of [req.query]
    ([None] when there is no [req.query]) and its body: a parsed [req.body]
    given by its [text] member, or no parsed body, with the raw UTF-8 text
    read from the stream, or a failure of reading the body (the access to
    [req.body] or the [for await] over the stream throws, with [String(e)]).
    [JSON.parse] is external to the repository: the
    handlers take as a parameter what parsing a raw text and reading its
    [text] member yields. *)

Inductive json_read :=
| JSONThrows (err : jsstr)     (* JSON.parse throws; [err] is [String(e)] *)
| JSONNull                     (* the text parses to [null] *)
| JSONText (text : jsinput).   (* the [text] member of the parsed value *)

Inductive request_body :=
| NoBody (raw : jsstr)
| Body (text : jsinput)
| BodyReadError (err : jsstr).

Record request := {
  req_method : jsstr;
  req_query : option jsinput;
  req_body : request_body
}.

Inductive response_body :=
| NoPayload
| JsonError (error : jsstr)
| JsonErrorDetails (error details : jsstr)
| JsonResult (r : result).

Record response := {
  status : nat;
  headers : list (jsstr * jsstr);
  payload : response_body
}.

(** [allowCORS] (lines 1-5), and [CORS] (lines 472-476). *)
Definition CORS_headers : list (jsstr * jsstr) :=
  map (fun kv => (js (fst kv), js (snd kv)))
  [("Access-Control-Allow-Origin", "*");
   ("Access-Control-Allow-Methods", "GET,POST,OPTIONS");
   ("Access-Control-Allow-Headers", "Content-Type")]%string.

Definition respond (code : nat) (p : response_body) : response :=
  {| status := code; headers := CORS_headers; payload := p |}.

(** Truthiness of a JS value (numbers are finite here). *)
Definition truthy_in (v : jsinput) : bool :=
  match v with
  | JUndefined | JNull => false
  | JBoolean b => b
  | JNumber q => negb (Qeq_bool q 0)
  | JString s => truthy_str s
  | JObject => true
  end.

(** [v || ""] *)
Definition or_empty_in (v : jsinput) : jsinput :=
  if truthy_in v then v else JString [].

Definition dq : ascii := ascii_of_nat 34.

(** ['Falta el parámetro "text" (string).'] (UTF-8) *)
Definition msg_missing_text : jsstr :=
  js "Falta el parámetro " ++ [dq] ++ js "text" ++ [dq] ++ js " (string).".

(** ['Falta el parámetro "text".'] (UTF-8), lines 558 and 565 *)
Definition msg_missing_text4 : jsstr :=
  js "Falta el parámetro " ++ [dq] ++ js "text" ++ [dq] ++ js ".".

(** [String(e)] for the [TypeError] of reading [.text] of [null] (V8). *)
Definition type_error_null_text : jsstr :=
  js "TypeError: Cannot read properties of null (reading 'text')".

(** The handler of lines 82-108; with [fmt := formatEmailText2] it is the
    handler of lines 243-276, whose code reads the same values. *)
Definition handler (JSON_parse_text : jsstr -> json_read) (fmt : jsinput -> result)
    (req : request) : response :=
  let m := req_method req in
  if str_eqb m (js "OPTIONS") then respond 204 NoPayload
  else
    let text :=
      if str_eqb m (js "GET") then
        Some (inl (or_empty_in (match req_query req with Some v => v | None => JUndefined end)))
      else if str_eqb m (js "POST") then
        Some (match req_body req with
              | Body v => inl (or_empty_in v)
              | NoBody raw =>
                  match JSON_parse_text (if truthy_str raw then raw else js "{}") with
                  | JSONThrows e => inr e
                  | JSONNull => inr type_error_null_text
                  | JSONText v => inl (or_empty_in v)
                  end
              | BodyReadError e => inr e
              end)
      else None in
    match text with
    | None => respond 405 (JsonError (js "Method Not Allowed"))
    | Some (inr e) => respond 500 (JsonErrorDetails (js "Internal Server Error") e)
    | Some (inl t) =>
        if negb (truthy_in t) then respond 400 (JsonError msg_missing_text)
        else respond 200 (JsonResult (fmt t))
    end.

Definition is_string_in (v : jsinput) : bool :=
  match v with JString _ => true | _ => false end.

(** The handler of lines 431-468: [JSON.parse(raw).text] inside its own
    [try] (a throw gives [""]), a [typeof text !== "string"] check, and the
    outer [catch] (lines 465-467) for a failing read of the body. *)
Definition handler3 (JSON_parse_text : jsstr -> json_read) (req : request) : response :=
  let m := req_method req in
  if str_eqb m (js "OPTIONS") then respond 204 NoPayload
  else
    let text :=
      if str_eqb m (js "GET") then
        Some (inl (or_empty_in (match req_query req with Some v => v | None => JUndefined end)))
      else if str_eqb m (js "POST") then
        Some (match req_body req with
              | Body v => inl v
              | NoBody raw =>
                  inl (match JSON_parse_text raw with
                       | JSONThrows _ | JSONNull => JString []
                       | JSONText v => v
                       end)
              | BodyReadError e => inr e
              end)
      else None in
    match text with
    | None => respond 405 (JsonError (js "Method Not Allowed"))
    | Some (inr e) => respond 500 (JsonErrorDetails (js "Internal Server Error") e)
    | Some (inl t) =>
        if negb (truthy_in t) || negb (is_string_in t) then respond 400 (JsonError msg_missing_text)
        else respond 200 (JsonResult (formatEmailText t))
    end.

(** [GET] of lines 555-560: [searchParams.get("text")] is [None] ([null])
    or the parameter's value. *)
Definition GET4 (param : option jsstr) : response :=
  let text := match param with Some s => if truthy_str s then s else [] | None => [] end in
  if negb (truthy_str text) then respond 400 (JsonError msg_missing_text4)
  else respond 200 (JsonResult (formatEmailText4 (JString text))).

(** [POST] of lines 562-567: [req.json()] rejecting is caught as [{}];
    reading [.text] of a [null] body throws out of the route ([None]). *)
Definition POST4 (body : json_read) : option response :=
  let text :=
    match body with
    | JSONThrows _ => Some (JString [])
    | JSONNull => None
    | JSONText v => Some (or_empty_in v)
    end in
  match text with
  | None => None
  | Some t =>
      if negb (truthy_in t) then Some (respond 400 (JsonError msg_missing_text4))
      else Some (respond 200 (JsonResult (formatEmailText4 t)))
  end.

(** ** Observations used in the statements below *)

Definition starts_with_dot (s : jsstr) : bool :=
  match s with c :: _ => is_dot c | [] => false end.

Fixpoint ends_with_dot (s : jsstr) : bool :=
  match s with
  | [] => false
  | [c] => is_dot c
  | _ :: r => ends_with_dot r
  end.

Definition isValid_of (r : result) : bool :=
  match r with
  | ErrorResult _ v _ _ => v
  | NormalizedResult _ _ v _ _ _ => v
  end.

(** The result with its [input] field replaced. *)
Definition set_input (i : jsstr) (r : result) : result :=
  match r with
  | ErrorResult _ _ _ _ => r
  | NormalizedResult _ e v c l d => NormalizedResult i e v c l d
  end.

(** * Lemmas *)

Lemma drop_while_incl p s : incl (drop_while p s) s.
Proof.
  induction s as [|c s IH]; simpl; [apply incl_refl|].
  destruct (p c); [apply incl_tl, IH | apply incl_refl].
Qed.

Lemma strip_dots_incl s : incl (strip_dots s) s.
Proof.
  unfold strip_dots. intros x Hx.
  apply in_rev in Hx. apply drop_while_incl in Hx.
  apply in_rev in Hx. apply drop_while_incl in Hx. exact Hx.
Qed.

Lemma collapse_dots_aux_incl b s : incl (collapse_dots_aux b s) s.
Proof.
  revert b; induction s as [|c s IH]; intros b; simpl; [apply incl_refl|].
  destruct (is_dot c); [destruct b|];
    try (apply incl_cons; [left; reflexivity | apply incl_tl, IH]).
  apply incl_tl, IH.
Qed.

Lemma collapse_dots_incl s : incl (collapse_dots s) s.
Proof. apply collapse_dots_aux_incl. Qed.

Lemma split_on_aux_no_sep sep cur s :
  ~ In sep cur -> Forall (fun piece => ~ In sep piece) (split_on_aux sep cur s).
Proof.
  revert cur; induction s as [|c s IH]; intros cur Hcur; simpl.
  - constructor; [rewrite <- in_rev; exact Hcur | constructor].
  - destruct (Ascii.eqb c sep) eqn:E.
    + constructor; [rewrite <- in_rev; exact Hcur|].
      apply IH. intros [].
    + apply IH. intros [H|H]; [|exact (Hcur H)].
      subst. rewrite Ascii.eqb_refl in E. discriminate.
Qed.

Lemma in_firstn {A} (x : A) n l : In x (firstn n l) -> In x l.
Proof.
  intros H. rewrite <- (firstn_skipn n l). apply in_or_app. left; exact H.
Qed.

Lemma split_limit_no_sep sep n s k piece :
  nth_error (split_limit sep n s) k = Some piece -> ~ In sep piece.
Proof.
  unfold split_limit. intros H.
  apply nth_error_In in H. apply in_firstn in H.
  pose proof (split_on_aux_no_sep sep [] s (fun H => H)) as HF.
  rewrite Forall_forall in HF. exact (HF _ H).
Qed.

Lemma or_empty_no_sep sep (x : option jsstr) :
  (forall p, x = Some p -> ~ In sep p) -> ~ In sep (or_empty x).
Proof. destruct x; simpl; [intros H; apply H; reflexivity | intros _ []]. Qed.

Lemma includes_false_not_in c s : includes c s = false -> ~ In c s.
Proof.
  unfold includes. intros H Hin.
  assert (existsb (Ascii.eqb c) s = true) as H'
    by (apply existsb_exists; exists c; split; [exact Hin | apply Ascii.eqb_refl]).
  congruence.
Qed.

(** The cleanup either yields [cleanLocal @ cleanDomain] with no [@] in
    either part, or a string with no [@] at all. *)
Lemma cleanup_shape out0 :
  (exists l d, cleanup out0 = l ++ [at_sign] ++ collapse_dots d /\
               ~ In at_sign l /\ ~ In at_sign d)
  \/ ~ In at_sign (cleanup out0).
Proof.
  unfold cleanup.
  set (out := replace_at_dot (replace_dot_at (collapse_dots out0))).
  destruct (includes at_sign out) eqn:Hi.
  - left. eexists; eexists; split; [reflexivity|]. split.
    + intros H; apply strip_dots_incl in H; revert H.
      apply or_empty_no_sep; intros p; apply split_limit_no_sep.
    + intros H; apply strip_dots_incl in H; revert H.
      apply or_empty_no_sep; intros p; apply split_limit_no_sep.
  - right. intros H. apply strip_dots_incl in H.
    exact (includes_false_not_in _ _ Hi H).
Qed.

Lemma indexOf_not_in c s : ~ In c s -> indexOf c s = None.
Proof.
  induction s as [|x s IH]; simpl; intros H; [reflexivity|].
  destruct (Ascii.eqb x c) eqn:E.
  - apply Ascii.eqb_eq in E. exfalso; apply H; left; exact E.
  - rewrite IH; [reflexivity|]. intros Hin; apply H; right; exact Hin.
Qed.

Lemma indexOf_in c s : In c s -> indexOf c s <> None.
Proof.
  induction s as [|x s IH]; simpl; intros H; [destruct H|].
  destruct (Ascii.eqb x c) eqn:E; [discriminate|].
  destruct H as [H|H].
  - subst. rewrite Ascii.eqb_refl in E. discriminate.
  - destruct (indexOf c s); [discriminate|]. exfalso; exact (IH H eq_refl).
Qed.

Lemma indexOf_app c l r : ~ In c l -> indexOf c (l ++ c :: r) = Some (List.length l).
Proof.
  induction l as [|x l IH]; simpl; intros H.
  - rewrite Ascii.eqb_refl. reflexivity.
  - destruct (Ascii.eqb x c) eqn:E.
    + apply Ascii.eqb_eq in E. exfalso; apply H; left; exact E.
    + rewrite IH; [reflexivity|]. intros Hin; apply H; right; exact Hin.
Qed.

Lemma indexOf_some c s n :
  indexOf c s = Some n -> s = firstn n s ++ c :: skipn (n + 1) s /\ ~ In c (firstn n s).
Proof.
  revert n; induction s as [|x s IH]; simpl; intros n H; [discriminate|].
  destruct (Ascii.eqb x c) eqn:E.
  - apply Ascii.eqb_eq in E. injection H as <-. subst. simpl. split; [reflexivity | intros []].
  - destruct (indexOf c s) as [m|] eqn:Hm; simpl in H; [|discriminate].
    injection H as <-. destruct (IH m eq_refl) as [Hs Hn]. simpl.
    split; [f_equal; exact Hs|].
    intros [H|H]; [|exact (Hn H)].
    subst. rewrite Ascii.eqb_refl in E. discriminate.
Qed.

Lemma skipn_length_app (l x : jsstr) a : skipn (List.length l + 1) (l ++ a :: x) = x.
Proof. induction l as [|y l IH]; simpl; [reflexivity | exact IH]. Qed.

Lemma validateEmail_domain_split l x :
  ~ In at_sign l -> v_domain (validateEmail (l ++ [at_sign] ++ x)) = x.
Proof.
  intros H. unfold validateEmail. simpl app at 2.
  rewrite (indexOf_app _ _ _ H). simpl. apply skipn_length_app.
Qed.

Lemma validateEmail_no_at email :
  ~ In at_sign email -> v_local (validateEmail email) = [] /\ v_domain (validateEmail email) = [].
Proof. intros H. unfold validateEmail. rewrite (indexOf_not_in _ _ H). split; reflexivity. Qed.

Lemma validateEmail_parts email :
  (In at_sign email ->
     email = v_local (validateEmail email) ++ [at_sign] ++ v_domain (validateEmail email) /\
     ~ In at_sign (v_local (validateEmail email))) /\
  (~ In at_sign email -> v_local (validateEmail email) = [] /\ v_domain (validateEmail email) = []).
Proof.
  split; [|apply validateEmail_no_at].
  intros Hin. unfold validateEmail.
  destruct (indexOf at_sign email) as [n|] eqn:E.
  - simpl. exact (indexOf_some _ _ _ E).
  - exfalso. exact (indexOf_in _ _ Hin E).
Qed.

Lemma validateEmail_confidence email :
  In (v_confidence (validateEmail email)) [0.0; 0.4; 0.6; 0.8; 0.99]%Q.
Proof.
  unfold validateEmail. destruct (indexOf at_sign email); simpl; [|tauto].
  destruct (localOk _ && domainOk _); [simpl; tauto|].
  destruct (localOk _ && _); simpl; tauto.
Qed.

Lemma collapse_dots_aux_nodd s :
  forall b, includes_dotdot (collapse_dots_aux b s) = false /\
    (b = true -> forall c r, collapse_dots_aux b s = c :: r -> is_dot c = false).
Proof.
  induction s as [|x s IH]; intros b; simpl.
  - split; [reflexivity | intros _ c r H; discriminate].
  - destruct (is_dot x) eqn:Ex.
    + destruct b.
      * exact (IH true).
      * split; [|intros H; discriminate].
        destruct (IH true) as [H1 H2].
        destruct (collapse_dots_aux true s) as [|y r] eqn:Ey; [reflexivity|].
        change (includes_dotdot (x :: y :: r))
          with ((is_dot x && is_dot y) || includes_dotdot (y :: r)).
        rewrite (H2 eq_refl y r eq_refl), H1, andb_false_r. reflexivity.
    + split; [|intros _ c r H; injection H as <- _; exact Ex].
      destruct (IH false) as [H1 _].
      destruct (collapse_dots_aux false s) as [|y r] eqn:Ey; [reflexivity|].
      change (includes_dotdot (x :: y :: r))
        with ((is_dot x && is_dot y) || includes_dotdot (y :: r)).
      rewrite Ex, H1. reflexivity.
Qed.

Lemma collapse_dots_nodd s : includes_dotdot (collapse_dots s) = false.
Proof. apply collapse_dots_aux_nodd. Qed.

Lemma formatEmailText_string s :
  s <> [] ->
  formatEmailText (JString s) =
    let out := cleanup (rewrite_tokens (tokenize (canonicalize s)) [] false) in
    let r := validateEmail out in
    NormalizedResult s out r.(v_isValid) r.(v_confidence) r.(v_local) r.(v_domain).
Proof. destruct s; [intros H; congruence | reflexivity]. Qed.

Lemma drop_while_all p s : forallb p s = true -> drop_while p s = [].
Proof.
  induction s as [|c s IH]; simpl; [reflexivity|].
  destruct (p c); simpl; [exact IH | discriminate].
Qed.

Ltac all_chars c := destruct c as [[] [] [] [] [] [] [] []].

Lemma group_char_domain c : is_group_char_ci c = true -> is_domain_char_ci c = true.
Proof. all_chars c; vm_compute; congruence. Qed.

Lemma group_char_not_dot c : is_group_char_ci c = true -> is_dot c = false.
Proof. all_chars c; vm_compute; congruence. Qed.

Lemma domain_char_group c :
  is_domain_char_ci c = true -> is_dot c = false -> is_group_char_ci c = true.
Proof. all_chars c; vm_compute; congruence. Qed.

Lemma is_dot_eq c : is_dot c = true -> c = dot.
Proof. unfold is_dot. apply Ascii.eqb_eq. Qed.

Lemma forallb_group_domain g :
  forallb is_group_char_ci g = true -> forallb is_domain_char_ci g = true.
Proof.
  rewrite !forallb_forall. intros H c Hc. apply group_char_domain, H, Hc.
Qed.

Lemma dotted_groups_props gs :
  dotted_groups gs ->
  forallb is_domain_char_ci gs = true /\
  exists c r, gs = c :: r /\ is_group_char_ci c = true.
Proof.
  induction 1 as [g Hne Hg | g r Hne Hg _ [IH _]].
  - split; [apply forallb_group_domain, Hg|].
    destruct g as [|c r]; [congruence|]. exists c, r. split; [reflexivity|].
    simpl in Hg. apply andb_prop in Hg. tauto.
  - split.
    + rewrite forallb_app. simpl. rewrite (forallb_group_domain _ Hg), IH. reflexivity.
    + destruct g as [|c g]; [congruence|]. exists c, (g ++ dot :: r). split; [reflexivity|].
      simpl in Hg. apply andb_prop in Hg. tauto.
Qed.

Lemma includes_dotdot_tail c s : includes_dotdot (c :: s) = false -> includes_dotdot s = false.
Proof.
  destruct s as [|c' s]; [reflexivity|].
  change (includes_dotdot (c :: c' :: s))
    with ((is_dot c && is_dot c') || includes_dotdot (c' :: s)).
  intros H. apply orb_false_elim in H. tauto.
Qed.

Lemma includes_dotdot_prefix x y :
  includes_dotdot (x ++ y) = false -> includes_dotdot x = false.
Proof.
  induction x as [|c x IH]; [reflexivity|].
  intros H. destruct x as [|c' x]; [reflexivity|].
  change (includes_dotdot (c :: c' :: x))
    with ((is_dot c && is_dot c') || includes_dotdot (c' :: x)).
  simpl app in H.
  change (includes_dotdot (c :: c' :: x ++ y))
    with ((is_dot c && is_dot c') || includes_dotdot (c' :: x ++ y)) in H.
  apply orb_false_elim in H. destruct H as [H1 H2].
  rewrite H1. simpl. apply IH. exact H2.
Qed.

Lemma dotted_groups_build n :
  forall p g, List.length p <= n -> g <> [] ->
  forallb is_group_char_ci g = true -> forallb is_domain_char_ci p = true ->
  includes_dotdot (p ++ [dot]) = false -> dotted_groups (g ++ p).
Proof.
  induction n as [|n IH]; intros p g Hlen Hg Hgc Hp Hdd.
  - destruct p; [rewrite app_nil_r; apply dg_one; assumption | simpl in Hlen; lia].
  - destruct p as [|c p]; [rewrite app_nil_r; apply dg_one; assumption|].
    simpl in Hp. apply andb_prop in Hp. destruct Hp as [Hc Hp].
    simpl in Hlen.
    destruct (is_dot c) eqn:Ec.
    + apply is_dot_eq in Ec. subst c.
      destruct p as [|c' p]; [discriminate|].
      simpl in Hp. apply andb_prop in Hp. destruct Hp as [Hc' Hp].
      simpl app in Hdd.
      change (includes_dotdot (dot :: c' :: p ++ [dot]))
        with ((is_dot dot && is_dot c') || includes_dotdot (c' :: p ++ [dot])) in Hdd.
      apply orb_false_elim in Hdd. destruct Hdd as [Hd1 Hd2].
      assert (is_dot c' = false) as Ec' by (destruct (is_dot c'); [discriminate | reflexivity]).
      apply dg_cons; [assumption | assumption|].
      change (c' :: p) with ([c'] ++ p).
      apply IH; simpl in *; try lia; try discriminate.
      * rewrite (domain_char_group _ Hc' Ec'). reflexivity.
      * exact Hp.
      * exact (includes_dotdot_tail _ _ Hd2).
    + replace (g ++ c :: p) with ((g ++ [c]) ++ p) by (rewrite <- app_assoc; reflexivity).
      apply IH; try lia.
      * destruct g; simpl; discriminate.
      * rewrite forallb_app, Hgc. simpl. rewrite (domain_char_group _ Hc Ec). reflexivity.
      * exact Hp.
      * exact (includes_dotdot_tail _ _ Hdd).
Qed.

Lemma firstn_length_app (p r : jsstr) : firstn (List.length p) (p ++ r) = p.
Proof. induction p as [|c p IH]; simpl; [reflexivity | f_equal; exact IH]. Qed.

Lemma skipn_length_app' (p r : jsstr) : skipn (List.length p) (p ++ r) = r.
Proof. induction p as [|c p IH]; simpl; [reflexivity | exact IH]. Qed.

Lemma cuts_in p r : In (p, r) (cuts (p ++ r)).
Proof.
  unfold cuts. apply in_map_iff. exists (List.length p).
  rewrite firstn_length_app, skipn_length_app'. split; [reflexivity|].
  apply in_seq. rewrite length_app. lia.
Qed.

Lemma cuts_split d p r : In (p, r) (cuts d) -> d = p ++ r.
Proof.
  unfold cuts. intros H. apply in_map_iff in H. destruct H as [k [Hk _]].
  injection Hk as <- <-. symmetry. apply firstn_skipn.
Qed.

(** * Properties of [formatEmailText] *)

(** C1: the input "raul dot smith at gmail dot com" gives the email
    "raul.smith@gmail.com", valid, with confidence 0.99. *)
Theorem normalize_raul_dot_smith :
  exists l d,
    formatEmailText (JString (js "raul dot smith at gmail dot com")) =
    NormalizedResult (js "raul dot smith at gmail dot com") (js "raul.smith@gmail.com")
      true 0.99%Q l d.
Proof. do 2 eexists. vm_compute. reflexivity. Qed.

(** C2: for every input the email holds at most one '@'; the repeated
    separator in "juan arroba arroba gmail punto com" gives one '@'. *)
Theorem email_at_most_one_at :
  (forall v, count_occ ascii_dec (email_of (formatEmailText v)) at_sign <= 1) /\
  email_of (formatEmailText (JString (js "juan arroba arroba gmail punto com")))
    = js "juan@gmail.com".
Proof.
  split; [|vm_compute; reflexivity].
  intros v. destruct v as [| | | |s|]; try (simpl; lia).
  destruct s as [|a s]; [simpl; lia|].
  rewrite formatEmailText_string by discriminate. simpl email_of.
  destruct (cleanup_shape (rewrite_tokens (tokenize (canonicalize (a :: s))) [] false))
    as [[l [d [Heq [Hl Hd]]]] | Hno].
  - rewrite Heq, !count_occ_app.
    rewrite (proj1 (count_occ_not_In ascii_dec l at_sign) Hl).
    rewrite (proj1 (count_occ_not_In ascii_dec (collapse_dots d) at_sign)).
    + simpl. destruct (ascii_dec at_sign at_sign); [lia | contradiction].
    + intros H. apply collapse_dots_incl in H. exact (Hd H).
  - rewrite (proj1 (count_occ_not_In ascii_dec _ at_sign) Hno). lia.
Qed.

(** C3: for every non-empty string the result is a [NormalizedResult]
    whose confidence is one of 0.0, 0.4, 0.6, 0.8, 0.99. *)
Theorem confidence_discrete s :
  s <> [] ->
  exists e b c l d,
    formatEmailText (JString s) = NormalizedResult s e b c l d /\
    In c [0.0; 0.4; 0.6; 0.8; 0.99]%Q.
Proof.
  intros Hs. rewrite (formatEmailText_string _ Hs).
  do 5 eexists. split; [reflexivity | apply validateEmail_confidence].
Qed.

(** C4: an absent, non-string or empty-string input gives exactly
    [{email: "", isValid: false, confidence: 0.0, reason: "Empty input"}]. *)
Theorem empty_input_error v :
  match v with JString s => s = [] | _ => True end ->
  formatEmailText v = ErrorResult [] false 0.0%Q (js "Empty input").
Proof. destruct v; simpl; intros H; try reflexivity. subst. reflexivity. Qed.

(** C5: "guion" followed by "bajo" is consumed as one bigram emitting '_';
    "guion bajo test arroba dominio punto com" gives "_test@dominio.com". *)
Theorem guion_bajo_bigram :
  (forall rest out seenAt,
     rewrite_tokens (js "guion" :: js "bajo" :: rest) out seenAt =
     rewrite_tokens rest (out ++ js "_") seenAt) /\
  email_of (formatEmailText (JString (js "guion bajo test arroba dominio punto com")))
    = js "_test@dominio.com".
Proof. split; [intros; reflexivity | vm_compute; reflexivity]. Qed.

(** C7: the [domain] field of a result never contains "..". *)
Theorem domain_no_double_dot v d :
  domain_of (formatEmailText v) = Some d -> includes_dotdot d = false.
Proof.
  destruct v as [| | | |s|]; try (simpl; discriminate).
  destruct s as [|a s]; [simpl; discriminate|].
  rewrite formatEmailText_string by discriminate. simpl.
  intros H; injection H as <-.
  destruct (cleanup_shape (rewrite_tokens (tokenize (canonicalize (a :: s))) [] false))
    as [[l [x [Heq [Hl _]]]] | Hno].
  - rewrite Heq, (validateEmail_domain_split _ _ Hl). apply collapse_dots_nodd.
  - rewrite (proj2 (validateEmail_no_at _ Hno)). reflexivity.
Qed.

(** C8: a non-empty input made only of whitespace is not the "Empty
    input" error: the pipeline runs on no token and returns the raw input,
    an empty email, isValid false and confidence 0.4. *)
Theorem whitespace_input_not_empty_error s :
  s <> [] -> forallb is_js_space s = true ->
  formatEmailText (JString s) = NormalizedResult s [] false 0.4%Q [] [].
Proof.
  intros Hs Hw. rewrite (formatEmailText_string _ Hs).
  unfold canonicalize, trim. rewrite (drop_while_all _ _ Hw). reflexivity.
Qed.

(** C9: the token "constructor" is found by [MAP_SINGLE[t]] on
    [Object.prototype]; its string conversion, with an upper-case letter,
    spaces and brackets, ends up in the email. *)
Theorem constructor_token_leaks_prototype :
  email_of (formatEmailText (JString (js "constructor")))
    = js "function Object() { [native code] }" /\
  forallb (fun c => is_email_char c || is_at c)
    (email_of (formatEmailText (JString (js "constructor")))) = false.
Proof. split; vm_compute; reflexivity. Qed.

(** C10: for a non-empty string, [local] and [domain] are the parts of
    [email] before and after its first '@', or both empty when [email] has
    no '@'. *)
Theorem local_domain_consistent s :
  s <> [] ->
  exists e b c l d,
    formatEmailText (JString s) = NormalizedResult s e b c l d /\
    (In at_sign e -> e = l ++ [at_sign] ++ d /\ ~ In at_sign l) /\
    (~ In at_sign e -> l = [] /\ d = []).
Proof.
  intros Hs. rewrite (formatEmailText_string _ Hs).
  do 5 eexists. split; [reflexivity | apply validateEmail_parts].
Qed.

(** On an arbitrary string, the [domainOk] test is not exactly the
    dotted-groups shape: the domain ".ab.cd" passes [domainOk], while its
    first group is empty.  The clean-up never hands the validator such a
    domain (see [domainOk_on_candidates] below). *)
Lemma domainOk_leading_dot_counterexample :
  domainOk (js ".ab.cd") = true /\ ~ spec_domain_shape (js ".ab.cd").
Proof.
  split; [vm_compute; reflexivity|].
  intros [gs [t [Hd [Hg _]]]].
  destruct (dotted_groups_props _ Hg) as [_ [c [r [-> Hc]]]].
  simpl in Hd. injection Hd as Hc0 _. subst c. discriminate Hc.
Qed.

(** [domainOk domain] holds exactly when [domain] is one or
    more groups of [[a-z0-9-]] separated by single dots, then a dot and a
    top-level label of at least two letters (case-insensitive), with no
    "..", where the domain may also start with one dot. *)
Theorem domainOk_shape d : domainOk d = true <-> domain_shape_lead_dot d.
Proof.
  unfold domainOk. split.
  - intros H. apply andb_prop in H. destruct H as [Hre Hdd].
    apply negb_true_iff in Hdd.
    unfold domain_regex_test in Hre. apply existsb_exists in Hre.
    destruct Hre as [[p r] [Hin Hm]]. apply cuts_split in Hin. simpl in Hm.
    destruct r as [|c q]; [discriminate|].
    apply andb_prop in Hm; destruct Hm as [Hm Hq].
    apply andb_prop in Hm; destruct Hm as [Hm Hlq].
    apply andb_prop in Hm; destruct Hm as [Hm Hc].
    apply andb_prop in Hm; destruct Hm as [Hpne Hp].
    apply is_dot_eq in Hc. subst c.
    assert (includes_dotdot (p ++ [dot]) = false) as Hpd.
    { apply (includes_dotdot_prefix _ q).
      replace ((p ++ [dot]) ++ q) with d by (rewrite Hin, <- app_assoc; reflexivity).
      exact Hdd. }
    assert (tld_ok q) as Ht by (split; [apply Nat.leb_le; exact Hlq | exact Hq]).
    destruct p as [|c0 p]; [discriminate|].
    simpl in Hp. apply andb_prop in Hp. destruct Hp as [Hc0 Hp].
    destruct (is_dot c0) eqn:E0.
    + apply is_dot_eq in E0. subst c0.
      destruct p as [|c1 p]; [discriminate|].
      simpl in Hp. apply andb_prop in Hp. destruct Hp as [Hc1 Hp].
      simpl app in Hpd.
      change (includes_dotdot (dot :: c1 :: p ++ [dot]))
        with ((is_dot dot && is_dot c1) || includes_dotdot (c1 :: p ++ [dot])) in Hpd.
      apply orb_false_elim in Hpd. destruct Hpd as [Hd1 Hd2].
      assert (is_dot c1 = false) as E1 by (destruct (is_dot c1); [discriminate | reflexivity]).
      exists [dot], (c1 :: p), q. split; [right; reflexivity|]. split; [exact Hin|].
      split; [|split; [exact Ht | exact Hdd]].
      change (c1 :: p) with ([c1] ++ p).
      apply (dotted_groups_build (List.length p)); [lia | discriminate | | exact Hp |].
      * simpl. rewrite (domain_char_group _ Hc1 E1). reflexivity.
      * exact (includes_dotdot_tail _ _ Hd2).
    + exists [], (c0 :: p), q. split; [left; reflexivity|]. split; [exact Hin|].
      split; [|split; [exact Ht | exact Hdd]].
      change (c0 :: p) with ([c0] ++ p).
      apply (dotted_groups_build (List.length p)); [lia | discriminate | | exact Hp |].
      * simpl. rewrite (domain_char_group _ Hc0 E0). reflexivity.
      * exact (includes_dotdot_tail _ _ Hpd).
  - intros [lead [gs [t [Hlead [Hd [Hg [[Ht1 Ht2] Hdd]]]]]]].
    rewrite Hdd, andb_true_r.
    destruct (dotted_groups_props _ Hg) as [Hgd [c [r [Hgs _]]]].
    unfold domain_regex_test. apply existsb_exists.
    exists (lead ++ gs, dot :: t). split.
    + rewrite Hd, app_assoc. apply cuts_in.
    + cbn [fst snd]. change (is_dot dot) with true. rewrite forallb_app, Hgd, Ht2.
      assert (truthy_str (lead ++ gs) = true) as Htr
        by (rewrite Hgs; destruct lead; reflexivity).
      assert (forallb is_domain_char_ci lead = true) as Hl
        by (destruct Hlead as [-> | ->]; reflexivity).
      rewrite Htr, Hl. apply Nat.leb_le in Ht1. rewrite Ht1. reflexivity.
Qed.

(** * Witnesses: the theorems with hypotheses at concrete inputs *)

Lemma confidence_discrete_witness :
  exists e b c l d,
    formatEmailText (JString (js "ventas empresa")) =
      NormalizedResult (js "ventas empresa") e b c l d /\
    In c [0.0; 0.4; 0.6; 0.8; 0.99]%Q.
Proof. apply (confidence_discrete (js "ventas empresa")). discriminate. Defined.

Lemma empty_input_error_witness :
  formatEmailText (JString []) = ErrorResult [] false 0.0%Q (js "Empty input") /\
  formatEmailText JUndefined = ErrorResult [] false 0.0%Q (js "Empty input").
Proof.
  split; [apply (empty_input_error (JString [])); reflexivity
         | apply (empty_input_error JUndefined); exact I].
Defined.

Lemma domain_no_double_dot_witness :
  domain_of (formatEmailText (JString (js "x at . q . . z dot dot com"))) = Some (js "q.z.com") /\
  includes_dotdot (js "q.z.com") = false.
Proof.
  assert (H : domain_of (formatEmailText (JString (js "x at . q . . z dot dot com")))
              = Some (js "q.z.com")) by (vm_compute; reflexivity).
  split; [exact H | apply (domain_no_double_dot _ _ H)].
Defined.

Lemma whitespace_input_not_empty_error_witness :
  formatEmailText (JString (js " ")) = NormalizedResult (js " ") [] false 0.4%Q [] [].
Proof. apply (whitespace_input_not_empty_error (js " ")); [discriminate | reflexivity]. Defined.

Lemma local_domain_consistent_witness :
  exists e b c l d,
    formatEmailText (JString (js "ana at mail dot es")) =
      NormalizedResult (js "ana at mail dot es") e b c l d /\
    (In at_sign e -> e = l ++ [at_sign] ++ d /\ ~ In at_sign l) /\
    (~ In at_sign e -> l = [] /\ d = []).
Proof. apply (local_domain_consistent (js "ana at mail dot es")). discriminate. Defined.


(** * Lemmas on the token loop and the clean-ups *)

Lemma length_strong_ind {A} (P : list A -> Prop) :
  (forall l, (forall l', List.length l' < List.length l -> P l') -> P l) ->
  forall l, P l.
Proof.
  intros H.
  assert (G : forall n l, List.length l <= n -> P l).
  { induction n as [|n IH]; intros l Hl; apply H; intros l' Hl'; [lia | apply IH; lia]. }
  intros l. apply (G (List.length l)). lia.
Qed.

Lemma rewrite_tokens_loop toks :
  forall out seenAt,
  rewrite_tokens toks out seenAt = fst (rewrite_loop IGNORE MAP_SINGLE toks out seenAt).
Proof.
  induction toks as [toks IH] using length_strong_ind. intros out seenAt.
  destruct toks as [|t rest]; [reflexivity|].
  cbn [rewrite_tokens rewrite_loop]. destruct (set_has IGNORE t); [apply IH; simpl; lia|].
  change (single_step_with MAP_SINGLE t seenAt) with (single_step t seenAt).
  destruct rest as [|next rest'].
  - destruct (single_step t seenAt). apply IH; simpl; lia.
  - destruct (_ && str_eqb next _); [apply IH; simpl; lia|].
    destruct (_ && (_ || _)); [apply IH; simpl; lia|].
    destruct (single_step t seenAt). apply IH; simpl; lia.
Qed.

Lemma single_step_with_agree ms1 ms2 t seenAt :
  assoc t ms1 = assoc t ms2 -> single_step_with ms1 t seenAt = single_step_with ms2 t seenAt.
Proof. intros H. unfold single_step_with, map_single_get_with. rewrite H. reflexivity. Qed.

(** Two vocabularies that agree on every token give the same loop. *)
Lemma rewrite_loop_agree ign1 ms1 ign2 ms2 toks :
  (forall t, In t toks -> set_has ign1 t = set_has ign2 t /\ assoc t ms1 = assoc t ms2) ->
  forall out seenAt,
  rewrite_loop ign1 ms1 toks out seenAt = rewrite_loop ign2 ms2 toks out seenAt.
Proof.
  induction toks as [toks IH] using length_strong_ind. intros Hag out seenAt.
  destruct toks as [|t rest]; [reflexivity|].
  destruct (Hag t (or_introl eq_refl)) as [Hi Hm].
  assert (Hrest : forall u, In u rest -> set_has ign1 u = set_has ign2 u /\ assoc u ms1 = assoc u ms2)
    by (intros u Hu; apply Hag; right; exact Hu).
  cbn [rewrite_loop]. rewrite Hi. destruct (set_has ign2 t); [apply IH; simpl; [lia | exact Hrest]|].
  rewrite (single_step_with_agree _ _ _ seenAt Hm).
  destruct rest as [|next rest'].
  - destruct (single_step_with ms2 t seenAt). apply IH; simpl; [lia | exact Hrest].
  - assert (Hrest' : forall u, In u rest' -> set_has ign1 u = set_has ign2 u /\ assoc u ms1 = assoc u ms2)
      by (intros u Hu; apply Hrest; right; exact Hu).
    destruct (_ && str_eqb next _); [apply IH; simpl; [lia | exact Hrest']|].
    destruct (_ && (_ || _)); [apply IH; simpl; [lia | exact Hrest']|].
    destruct (single_step_with ms2 t seenAt). apply IH; simpl; [lia | exact Hrest].
Qed.

Lemma str_eqb_true a b : str_eqb a b = true -> a = b.
Proof. unfold str_eqb. destruct (list_eq_dec ascii_dec a b); [tauto | discriminate]. Qed.

Lemma assoc_not_key {V} t (l : list (jsstr * V)) : ~ In t (map fst l) -> assoc t l = None.
Proof.
  induction l as [|[k v] l IH]; simpl; intros H; [reflexivity|].
  destruct (str_eqb t k) eqn:E.
  - apply str_eqb_true in E. subst. exfalso. apply H. left. reflexivity.
  - apply IH. intros Hin. apply H. right. exact Hin.
Qed.

Lemma assoc_key {V} t (l : list (jsstr * V)) v : assoc t l = Some v -> In t (map fst l).
Proof.
  induction l as [|[k w] l IH]; simpl; intros H; [discriminate|].
  destruct (str_eqb t k) eqn:E.
  - apply str_eqb_true in E. left. symmetry. exact E.
  - right. apply IH. exact H.
Qed.

Lemma set_has_not_in set t : ~ In t set -> set_has set t = false.
Proof.
  unfold set_has. intros H. apply not_true_is_false. intros Hx.
  apply existsb_exists in Hx. destruct Hx as [k [Hk E]].
  apply str_eqb_true in E. subst. exact (H Hk).
Qed.

Lemma includes_dotdot_cons a l :
  includes_dotdot (a :: l) = (is_dot a && starts_with_dot l) || includes_dotdot l.
Proof. destruct l as [|b l]; [simpl; btauto | reflexivity]. Qed.

Lemma ends_with_dot_cons a l :
  l <> [] -> ends_with_dot (a :: l) = ends_with_dot l.
Proof. destruct l; [congruence | reflexivity]. Qed.

Lemma ends_with_dot_last x c : ends_with_dot (x ++ [c]) = is_dot c.
Proof.
  induction x as [|a x IH]; [reflexivity|].
  simpl app. rewrite ends_with_dot_cons; [exact IH | destruct x; discriminate].
Qed.

Lemma starts_with_dot_app x y :
  starts_with_dot (x ++ y) = if x then starts_with_dot y else starts_with_dot x.
Proof. destruct x; reflexivity. Qed.

Lemma includes_dotdot_app x y :
  includes_dotdot (x ++ y) =
  includes_dotdot x || includes_dotdot y || (ends_with_dot x && starts_with_dot y).
Proof.
  induction x as [|a x IH]; [simpl; btauto|].
  simpl app. rewrite !includes_dotdot_cons, IH, starts_with_dot_app.
  destruct x as [|b x]; simpl; btauto.
Qed.

Lemma includes_dotdot_infix a x b :
  includes_dotdot (a ++ x ++ b) = false -> includes_dotdot x = false.
Proof.
  rewrite !includes_dotdot_app. intros H.
  destruct (includes_dotdot x); [|reflexivity].
  destruct (includes_dotdot a); [discriminate|]. simpl in H. discriminate.
Qed.

Lemma drop_while_suffix p s : exists k, s = k ++ drop_while p s.
Proof.
  induction s as [|c s [k Hk]]; [exists []; reflexivity|].
  simpl. destruct (p c); [exists (c :: k); simpl; f_equal; exact Hk | exists []; reflexivity].
Qed.

Lemma drop_while_head p s :
  match drop_while p s with c :: _ => p c = false | [] => True end.
Proof.
  induction s as [|c s IH]; [exact I|]. simpl.
  destruct (p c) eqn:E; [exact IH | exact E].
Qed.

Lemma strip_dots_infix s : exists a b, s = a ++ strip_dots s ++ b.
Proof.
  destruct (drop_while_suffix is_dot s) as [k0 Hk0].
  set (x := drop_while is_dot s) in *.
  destruct (drop_while_suffix is_dot (rev x)) as [k Hk].
  exists k0, (rev k). unfold strip_dots. fold x.
  set (y := drop_while is_dot (rev x)) in *.
  rewrite Hk0 at 1. f_equal.
  rewrite <- (rev_involutive x), Hk, rev_app_distr. reflexivity.
Qed.

Lemma split_on_aux_infix sep cur s piece :
  In piece (split_on_aux sep cur s) -> exists a b, rev cur ++ s = a ++ piece ++ b.
Proof.
  revert cur; induction s as [|c s IH]; intros cur H; simpl in H.
  - destruct H as [<-|[]]. exists [], []. rewrite !app_nil_r. reflexivity.
  - destruct (Ascii.eqb c sep).
    + destruct H as [<-|H].
      * exists [], (c :: s). reflexivity.
      * destruct (IH [] H) as [a [b Hab]]. simpl in Hab.
        exists (rev cur ++ c :: a), b. rewrite Hab, <- app_assoc. reflexivity.
    + destruct (IH (c :: cur) H) as [a [b Hab]]. simpl in Hab.
      exists a, b. rewrite <- Hab, <- app_assoc. reflexivity.
Qed.

Lemma split_limit_infix sep n s k piece :
  nth_error (split_limit sep n s) k = Some piece -> exists a b, s = a ++ piece ++ b.
Proof.
  unfold split_limit. intros H. apply nth_error_In, in_firstn in H.
  exact (split_on_aux_infix _ _ _ _ H).
Qed.

Lemma or_empty_piece_infix sep n s k :
  exists a b, s = a ++ or_empty (nth_error (split_limit sep n s) k) ++ b.
Proof.
  destruct (nth_error (split_limit sep n s) k) as [piece|] eqn:E; simpl.
  - exact (split_limit_infix _ _ _ _ _ E).
  - exists s, []. rewrite !app_nil_r. reflexivity.
Qed.

Lemma stripped_piece_infix sep n s k :
  exists a b, s = a ++ strip_dots (or_empty (nth_error (split_limit sep n s) k)) ++ b.
Proof.
  destruct (or_empty_piece_infix sep n s k) as [a [b Hab]].
  destruct (strip_dots_infix (or_empty (nth_error (split_limit sep n s) k))) as [c [d Hcd]].
  exists (a ++ c), (d ++ b). rewrite Hab at 1. rewrite Hcd at 1.
  rewrite <- !app_assoc. reflexivity.
Qed.

Lemma is_at_eq c : is_at c = true -> c = at_sign.
Proof. unfold is_at. apply Ascii.eqb_eq. Qed.

Lemma includes_dotdot_tail2 a b r :
  includes_dotdot (a :: b :: r) = false -> includes_dotdot r = false.
Proof.
  rewrite !includes_dotdot_cons. intros H.
  apply orb_false_iff in H as [_ H]. apply orb_false_iff in H as [_ H]. exact H.
Qed.

Lemma includes_dotdot_tail1 a r :
  includes_dotdot (a :: r) = false -> includes_dotdot r = false.
Proof. rewrite includes_dotdot_cons. intros H. apply orb_false_iff in H as [_ H]. exact H. Qed.

Lemma replace_dot_at_cons2 c c' r :
  replace_dot_at (c :: c' :: r) =
  if is_dot c && is_at c' then at_sign :: replace_dot_at r
  else c :: replace_dot_at (c' :: r).
Proof. reflexivity. Qed.

(** The four facts about [replace(/\.@/g, "@")] the clean-up relies on. *)
Lemma replace_dot_at_props s :
  incl (replace_dot_at s) s /\
  (In at_sign s -> In at_sign (replace_dot_at s)) /\
  (includes_dotdot s = false -> includes_dotdot (replace_dot_at s) = false) /\
  (starts_with_dot (replace_dot_at s) = true -> starts_with_dot s = true).
Proof.
  induction s as [s IH] using length_strong_ind.
  destruct s as [|c [|c' r]]; [repeat split; auto using incl_refl..|].
  rewrite replace_dot_at_cons2. destruct (is_dot c && is_at c') eqn:E.
  - apply andb_true_iff in E as [Ed Ea].
    destruct (IH r) as (I1 & I2 & I3 & I4); [simpl; lia|].
    repeat split.
    + intros x [<-|Hx]; [right; left; exact (is_at_eq _ Ea)|].
      right; right; apply I1; exact Hx.
    + intros _; left; reflexivity.
    + intros H. apply includes_dotdot_tail2 in H.
      rewrite includes_dotdot_cons, (I3 H), orb_false_r. reflexivity.
    + intros H. cbn in H. discriminate.
  - destruct (IH (c' :: r)) as (I1 & I2 & I3 & I4); [simpl; lia|].
    repeat split.
    + intros x [<-|Hx]; [left; reflexivity | right; apply I1; exact Hx].
    + intros [<-|H]; [left; reflexivity | right; apply I2, H].
    + intros H. rewrite includes_dotdot_cons in H |- *.
      apply orb_false_iff in H as [H0 H]. rewrite (I3 H), orb_false_r.
      destruct (is_dot c) eqn:Ec; [|reflexivity].
      destruct (starts_with_dot (replace_dot_at (c' :: r))) eqn:Es; [|reflexivity].
      specialize (I4 eq_refl). cbn [starts_with_dot andb] in H0, I4. congruence.
    + intros H; exact H.
Qed.

(** The same four facts about [replace(/@\.?/g, "@")]. *)
Lemma replace_at_dot_props s :
  incl (replace_at_dot s) s /\
  (In at_sign s -> In at_sign (replace_at_dot s)) /\
  (includes_dotdot s = false -> includes_dotdot (replace_at_dot s) = false) /\
  (starts_with_dot (replace_at_dot s) = true -> starts_with_dot s = true).
Proof.
  induction s as [s IH] using length_strong_ind.
  destruct s as [|c r]; [repeat split; auto using incl_refl|].
  cbn [replace_at_dot]. destruct (is_at c) eqn:Ea.
  - apply is_at_eq in Ea. subst c. destruct r as [|c' r'].
    + repeat split; try (intros H; cbn in H; discriminate); auto using incl_refl.
    + destruct (is_dot c') eqn:Ed.
      * destruct (IH r') as (I1 & I2 & I3 & I4); [simpl; lia|].
        repeat split.
        -- intros x [<-|Hx]; [left; reflexivity | right; right; apply I1; exact Hx].
        -- intros _; left; reflexivity.
        -- intros H. apply includes_dotdot_tail2 in H.
           rewrite includes_dotdot_cons, (I3 H), orb_false_r. reflexivity.
        -- intros H. cbn in H. discriminate.
      * destruct (IH (c' :: r')) as (I1 & I2 & I3 & I4); [simpl; lia|].
        repeat split.
        -- intros x [<-|Hx]; [left; reflexivity | right; apply I1; exact Hx].
        -- intros _; left; reflexivity.
        -- intros H. apply includes_dotdot_tail1 in H.
           rewrite includes_dotdot_cons, (I3 H), orb_false_r. reflexivity.
        -- intros H. cbn in H. discriminate.
  - destruct (IH r) as (I1 & I2 & I3 & I4); [simpl; lia|].
    repeat split.
    + intros x [<-|Hx]; [left; reflexivity | right; apply I1; exact Hx].
    + intros [<-|H]; [left; reflexivity | right; apply I2, H].
    + intros H. rewrite includes_dotdot_cons in H |- *.
      apply orb_false_iff in H as [H0 H]. rewrite (I3 H), orb_false_r.
      destruct (is_dot c) eqn:Ec; [|reflexivity].
      destruct (starts_with_dot (replace_at_dot r)) eqn:Es; [|reflexivity].
      specialize (I4 eq_refl). rewrite I4 in H0. exact H0.
    + intros H; exact H.
Qed.

Lemma collapse_dots_aux_at b s :
  In at_sign s -> In at_sign (collapse_dots_aux b s).
Proof.
  revert b; induction s as [|c s IH]; intros b H; [destruct H|].
  destruct H as [Hc|H].
  - subst c. simpl. left; reflexivity.
  - simpl. destruct (is_dot c); [destruct b|].
    + apply IH; exact H.
    + right; apply IH; exact H.
    + right; apply IH; exact H.
Qed.

Lemma pre_cleanup_incl s : incl (pre_cleanup s) s.
Proof.
  unfold pre_cleanup. intros x Hx.
  apply (proj1 (replace_at_dot_props _)) in Hx.
  apply (proj1 (replace_dot_at_props _)) in Hx.
  exact (collapse_dots_incl _ _ Hx).
Qed.

Lemma pre_cleanup_at s : In at_sign s -> In at_sign (pre_cleanup s).
Proof.
  intros H. unfold pre_cleanup.
  apply (proj1 (proj2 (replace_at_dot_props _))).
  apply (proj1 (proj2 (replace_dot_at_props _))).
  apply collapse_dots_aux_at, H.
Qed.

Lemma pre_cleanup_nodd s : includes_dotdot (pre_cleanup s) = false.
Proof.
  unfold pre_cleanup.
  apply (proj1 (proj2 (proj2 (replace_at_dot_props _)))).
  apply (proj1 (proj2 (proj2 (replace_dot_at_props _)))).
  apply collapse_dots_nodd.
Qed.

Lemma includes_true_in c s : includes c s = true -> In c s.
Proof.
  unfold includes. intros H. apply existsb_exists in H as [x [Hx E]].
  apply Ascii.eqb_eq in E. subst x. exact Hx.
Qed.

Lemma ends_with_dot_app_nonnil k m :
  m <> [] -> ends_with_dot (k ++ m) = ends_with_dot m.
Proof.
  intros Hm. induction k as [|a k IH]; [reflexivity|].
  simpl app. rewrite ends_with_dot_cons; [exact IH|].
  destruct k, m; simpl; congruence.
Qed.

Lemma ends_with_dot_rev l : ends_with_dot (rev l) = starts_with_dot l.
Proof. destruct l as [|c r]; [reflexivity|]. simpl. apply ends_with_dot_last. Qed.

Lemma starts_with_dot_rev l : starts_with_dot (rev l) = ends_with_dot l.
Proof. rewrite <- (rev_involutive l) at 2. symmetry. apply ends_with_dot_rev. Qed.

Lemma starts_drop_dots s : starts_with_dot (drop_while is_dot s) = false.
Proof.
  pose proof (drop_while_head is_dot s) as H.
  destruct (drop_while is_dot s); [reflexivity | exact H].
Qed.

Lemma strip_dots_ends s : ends_with_dot (strip_dots s) = false.
Proof. unfold strip_dots. rewrite ends_with_dot_rev. apply starts_drop_dots. Qed.

Lemma strip_dots_starts s : starts_with_dot (strip_dots s) = false.
Proof.
  unfold strip_dots. rewrite starts_with_dot_rev.
  set (x := drop_while is_dot s).
  destruct (drop_while_suffix is_dot (rev x)) as [k Hk].
  destruct (drop_while is_dot (rev x)) as [|c m] eqn:E; [reflexivity|].
  rewrite <- (ends_with_dot_app_nonnil k) by discriminate. rewrite <- Hk.
  rewrite ends_with_dot_rev. apply starts_drop_dots.
Qed.

Lemma collapse_dots_starts s : starts_with_dot (collapse_dots s) = starts_with_dot s.
Proof. destruct s as [|c r]; [reflexivity|]. unfold collapse_dots. simpl.
  destruct (is_dot c) eqn:E; simpl; rewrite ?E; reflexivity.
Qed.

Lemma collapse_dots_aux_last b x c :
  is_dot c = false -> collapse_dots_aux b (x ++ [c]) = collapse_dots_aux b x ++ [c].
Proof.
  intros Hc. revert b; induction x as [|a x IH]; intros b.
  - simpl. rewrite Hc. reflexivity.
  - simpl. destruct (is_dot a); [destruct b|]; rewrite IH; reflexivity.
Qed.

Lemma collapse_dots_ends s :
  ends_with_dot s = false -> ends_with_dot (collapse_dots s) = false.
Proof.
  induction s as [|c x _] using rev_ind; [reflexivity|].
  rewrite ends_with_dot_last. intros Hc. unfold collapse_dots.
    rewrite collapse_dots_aux_last by exact Hc. rewrite ends_with_dot_last. exact Hc.
Qed.

Lemma finalize_nodd y :
  includes_dotdot y = false -> includes_dotdot (finalize y) = false.
Proof.
  intros Hy. unfold finalize. destruct (includes at_sign y).
  - rewrite includes_dotdot_app.
    destruct (stripped_piece_infix at_sign 2 y 0) as [a [b Hab]].
    rewrite Hab in Hy. rewrite (includes_dotdot_infix _ _ _ Hy). simpl app.
    rewrite includes_dotdot_cons, collapse_dots_nodd, andb_false_r. reflexivity.
  - destruct (strip_dots_infix y) as [a [b Hab]].
    rewrite Hab in Hy. exact (includes_dotdot_infix _ _ _ Hy).
Qed.

Lemma finalize_incl y : incl (finalize y) y.
Proof.
  unfold finalize. destruct (includes at_sign y) eqn:Hi.
  - intros x Hx. apply in_app_or in Hx as [Hx|[<-|Hx]].
    + destruct (or_empty_piece_infix at_sign 2 y 0) as [a [b Hab]].
      apply strip_dots_incl in Hx. rewrite Hab.
      apply in_or_app; right; apply in_or_app; left; exact Hx.
    + exact (includes_true_in _ _ Hi).
    + destruct (or_empty_piece_infix at_sign 2 y 1) as [a [b Hab]].
      apply collapse_dots_incl, strip_dots_incl in Hx. rewrite Hab.
      apply in_or_app; right; apply in_or_app; left; exact Hx.
  - apply strip_dots_incl.
Qed.

(** The shape of the per-part clean-up: one ["@"] between two parts, or
    none, and no part begins or ends with a dot. *)
Lemma finalize_edges y :
  (exists l d, finalize y = l ++ at_sign :: d /\ ~ In at_sign l /\ ~ In at_sign d /\
     starts_with_dot l = false /\ ends_with_dot l = false /\
     starts_with_dot d = false /\ ends_with_dot d = false)
  \/ (~ In at_sign (finalize y) /\ starts_with_dot (finalize y) = false /\
      ends_with_dot (finalize y) = false).
Proof.
  unfold finalize. destruct (includes at_sign y) eqn:Hi.
  - left. eexists; eexists; split; [reflexivity|].
    repeat split.
    + intros H; apply strip_dots_incl in H; revert H.
      apply or_empty_no_sep; intros p; apply split_limit_no_sep.
    + intros H; apply collapse_dots_incl, strip_dots_incl in H; revert H.
      apply or_empty_no_sep; intros p; apply split_limit_no_sep.
    + apply strip_dots_starts.
    + apply strip_dots_ends.
    + rewrite collapse_dots_starts. apply strip_dots_starts.
    + apply collapse_dots_ends, strip_dots_ends.
  - right. repeat split.
    + intros H. apply strip_dots_incl in H. exact (includes_false_not_in _ _ Hi H).
    + apply strip_dots_starts.
    + apply strip_dots_ends.
Qed.

Lemma cleanup_finalize x : cleanup x = finalize (pre_cleanup x).
Proof. reflexivity. Qed.

Lemma formatEmailText_email v :
  email_of (formatEmailText v) = [] \/
  exists s, s <> [] /\
    email_of (formatEmailText v) =
    finalize (pre_cleanup (rewrite_tokens (tokenize (canonicalize s)) [] false)).
Proof.
  destruct v as [| | | |s|]; try (left; reflexivity).
  destruct s as [|a s]; [left; reflexivity|].
  right. exists (a :: s). split; [discriminate|].
  rewrite formatEmailText_string by discriminate. reflexivity.
Qed.

(** X1: the whole e-mail (local part, "@" and domain), not only the
    domain, never contains "..". *)
Theorem email_no_double_dot v :
  includes_dotdot (email_of (formatEmailText v)) = false.
Proof.
  destruct (formatEmailText_email v) as [-> | [s [_ ->]]]; [reflexivity|].
  apply finalize_nodd, pre_cleanup_nodd.
Qed.

(** X2: no part of the e-mail begins or ends with a dot: with an "@" the
    local part and the domain are dot-free at both ends, without one the
    whole e-mail is. *)
Theorem email_no_edge_dots v :
  (exists l d, email_of (formatEmailText v) = l ++ at_sign :: d /\
     starts_with_dot l = false /\ ends_with_dot l = false /\
     starts_with_dot d = false /\ ends_with_dot d = false)
  \/ (~ In at_sign (email_of (formatEmailText v)) /\
      starts_with_dot (email_of (formatEmailText v)) = false /\
      ends_with_dot (email_of (formatEmailText v)) = false).
Proof.
  destruct (formatEmailText_email v) as [-> | [s [_ ->]]].
  - right. repeat split. intros [].
  - destruct (finalize_edges (pre_cleanup (rewrite_tokens (tokenize (canonicalize s)) [] false)))
      as [[l [d (E & _ & _ & H1 & H2 & H3 & H4)]] | H].
    + left. exists l, d. rewrite E. repeat split; assumption.
    + right. exact H.
Qed.

(** A character property that holds of everything each step appends, and
    of ["_"] and ["-"], holds of the rewriter's whole output. *)
Lemma rewrite_loop_forallb (P : ascii -> bool) ign ms toks :
  P "_"%char = true -> P "-"%char = true ->
  (forall t s, In t toks -> forallb P (fst (single_step_with ms t s)) = true) ->
  forall out s, forallb P out = true -> forallb P (fst (rewrite_loop ign ms toks out s)) = true.
Proof.
  intros Pu Pd.
  induction toks as [toks IH] using length_strong_ind. intros Hst out s Hout.
  destruct toks as [|t rest]; [exact Hout|].
  assert (Hrest : forall u s', In u rest -> forallb P (fst (single_step_with ms u s')) = true)
    by (intros u s' Hu; apply Hst; right; exact Hu).
  pose proof (Hst t s (or_introl eq_refl)) as Ht.
  cbn [rewrite_loop]. destruct (set_has ign t); [apply IH; simpl; [lia | exact Hrest | exact Hout]|].
  destruct rest as [|next rest'].
  - destruct (single_step_with ms t s) as [e s'] eqn:E. apply IH; simpl; [lia | exact Hrest|].
    rewrite forallb_app, Hout. exact Ht.
  - assert (Hrest' : forall u s', In u rest' -> forallb P (fst (single_step_with ms u s')) = true)
      by (intros u s' Hu; apply Hrest; right; exact Hu).
    destruct (_ && str_eqb next _).
    { apply IH; simpl; [lia | exact Hrest'|]. rewrite forallb_app, Hout. simpl. rewrite Pu. reflexivity. }
    destruct (_ && (_ || _)).
    { apply IH; simpl; [lia | exact Hrest'|]. rewrite forallb_app, Hout. simpl. rewrite Pd. reflexivity. }
    destruct (single_step_with ms t s) as [e s'] eqn:E. apply IH; simpl; [lia | exact Hrest|].
    rewrite forallb_app, Hout. exact Ht.
Qed.

Lemma assoc_in_values {V} t (l : list (jsstr * V)) v : assoc t l = Some v -> In v (map snd l).
Proof.
  induction l as [|[k w] l IH]; simpl; intros H; [discriminate|].
  destruct (str_eqb t k); [injection H as <-; left; reflexivity | right; apply IH, H].
Qed.

Lemma symbol_token_chars t :
  is_symbol_token t = true -> forallb (fun c => is_email_char c || is_at c) t = true.
Proof.
  unfold is_symbol_token, set_has. intros H.
  apply existsb_exists in H as [x [Hx E]]. apply str_eqb_true in E. subst x.
  simpl in Hx. repeat destruct Hx as [<-|Hx]; try reflexivity. destruct Hx.
Qed.

Lemma strip_invalid_chars t :
  forallb (fun c => is_email_char c || is_at c) (strip_invalid t) = true.
Proof.
  induction t as [|a t IH]; [reflexivity|]. unfold strip_invalid in *. simpl.
  destruct (is_email_char a) eqn:E; [simpl; rewrite E, IH; reflexivity | exact IH].
Qed.

(** What one step appends is made of e-mail characters and ["@"], when
    the table's values are and [t] is not found on the prototype chain. *)
Lemma single_step_with_chars (ms : list (jsstr * jsstr)) t s :
  forallb (forallb (fun c => is_email_char c || is_at c)) (map snd ms) = true ->
  assoc t Object_prototype = None ->
  forallb (fun c => is_email_char c || is_at c) (fst (single_step_with ms t s)) = true.
Proof.
  intros Hms Hp. unfold single_step_with, map_single_get_with.
  destruct (assoc t ms) as [v|] eqn:E.
  - cbn [truthy is_at_sym to_str].
    destruct (truthy_str v); [destruct (str_eqb v (js "@")); [destruct s; reflexivity|]|];
      [| destruct (is_symbol_token t) eqn:Hs;
         [apply symbol_token_chars, Hs | apply strip_invalid_chars]].
    apply assoc_in_values in E. rewrite forallb_forall in Hms. exact (Hms v E).
  - rewrite Hp. destruct (is_symbol_token t) eqn:Hs;
      [apply symbol_token_chars, Hs | apply strip_invalid_chars].
Qed.

Lemma lower_char_not_upper c : is_upper (lower_char c) = false.
Proof. all_chars c; vm_compute; reflexivity. Qed.

Lemma split_ws_aux_incl cur b s piece :
  In piece (split_ws_aux cur b s) -> incl piece (cur ++ s).
Proof.
  revert cur b; induction s as [|c s IH]; intros cur b H x Hx; simpl in H.
  - destruct H as [<-|[]]. rewrite app_nil_r. apply in_rev, Hx.
  - rewrite in_app_iff; simpl.
    destruct (is_js_space c); [destruct b|].
    + specialize (IH _ _ H x Hx). rewrite in_app_iff in IH. tauto.
    + destruct H as [<-|H]; [left; apply in_rev, Hx|].
      specialize (IH _ _ H x Hx). simpl in IH. tauto.
    + specialize (IH _ _ H x Hx). simpl in IH. rewrite in_app_iff in IH. tauto.
Qed.

Lemma tokens_lower s t c :
  In t (tokenize (canonicalize s)) -> In c t -> is_upper c = false.
Proof.
  unfold tokenize, split_ws. intros Ht Hc. apply filter_In in Ht as [Ht _].
  apply (split_ws_aux_incl _ _ _ _ Ht) in Hc. simpl in Hc.
  unfold canonicalize, removeDiacritics, toLowerCase in Hc.
  apply in_map_iff in Hc as [c' [<- _]]. apply lower_char_not_upper.
Qed.

(** Only the two keys of [Object.prototype] without an upper-case letter
    can be hit by a lower-case token. *)
Lemma prototype_miss t :
  (forall c, In c t -> is_upper c = false) ->
  t <> js "constructor" -> t <> js "__proto__" ->
  assoc t Object_prototype = None.
Proof.
  intros Hl H1 H2. apply assoc_not_key. intros Hk.
  assert (Hx : existsb is_upper t = false).
  { apply not_true_is_false. intros Hx. apply existsb_exists in Hx as [c [Hc E]].
    rewrite (Hl c Hc) in E. discriminate. }
  simpl in Hk. repeat destruct Hk as [Hk|Hk]; try contradiction; subst t;
    try (exfalso; apply H1; reflexivity); try (exfalso; apply H2; reflexivity);
    vm_compute in Hx; discriminate.
Qed.

Lemma MAP_SINGLE_values_chars :
  forallb (forallb (fun c => is_email_char c || is_at c)) (map snd MAP_SINGLE) = true.
Proof. vm_compute. reflexivity. Qed.

(** X3: for an input made of 7-bit ASCII characters, unless a token is
    "constructor" or "__proto__" (the two keys of [Object.prototype] a
    lower-cased token can hit), the e-mail is made of [a-z0-9._+-] and "@"
    only. *)
Theorem email_chars s :
  is_ascii_str s = true ->
  (forall t, In t (tokenize (canonicalize s)) ->
     t <> js "constructor" /\ t <> js "__proto__") ->
  forallb (fun c => is_email_char c || is_at c) (email_of (formatEmailText (JString s))) = true.
Proof.
  intros _ Ht. destruct s as [|a s]; [reflexivity|].
  rewrite formatEmailText_string by discriminate. cbn [email_of].
  rewrite cleanup_finalize, rewrite_tokens_loop.
  apply forallb_forall. intros c Hc.
  apply finalize_incl, pre_cleanup_incl in Hc. revert c Hc. apply forallb_forall.
  apply rewrite_loop_forallb; [reflexivity | reflexivity | | reflexivity].
  intros t s' Hin. apply single_step_with_chars; [exact MAP_SINGLE_values_chars|].
  destruct (Ht t Hin) as [H1 H2]. apply prototype_miss; [|exact H1 | exact H2].
  intros c Hc. exact (tokens_lower _ _ _ Hin Hc).
Qed.

Lemma email_chars_witness :
  is_ascii_str (js "Juan.Perez ARROBA Correo punto COM") = true /\
  (forall t, In t (tokenize (canonicalize (js "Juan.Perez ARROBA Correo punto COM"))) ->
     t <> js "constructor" /\ t <> js "__proto__") /\
  forallb (fun c => is_email_char c || is_at c)
    (email_of (formatEmailText (JString (js "Juan.Perez ARROBA Correo punto COM")))) = true.
Proof.
  assert (Ha : is_ascii_str (js "Juan.Perez ARROBA Correo punto COM") = true) by reflexivity.
  assert (H : forall t, In t (tokenize (canonicalize (js "Juan.Perez ARROBA Correo punto COM"))) ->
                t <> js "constructor" /\ t <> js "__proto__").
  { intros t Ht. vm_compute in Ht.
    repeat destruct Ht as [Ht|Ht]; try contradiction; subst t; split; discriminate. }
  split; [exact Ha|]. split; [exact H | exact (email_chars _ Ha H)].
Defined.

Lemma validateEmail_valid_iff email :
  v_isValid (validateEmail email) = true <-> v_confidence (validateEmail email) = 0.99%Q.
Proof.
  unfold validateEmail. destruct (indexOf at_sign email); cbn [v_isValid v_confidence].
  - destruct (localOk _ && domainOk _); [tauto|].
    destruct (localOk _ && _); split; discriminate.
  - split; discriminate.
Qed.

(** X4: a result is valid exactly when its confidence is 0.99. *)
Theorem isValid_iff_top_confidence v :
  isValid_of (formatEmailText v) = true <-> confidence_of (formatEmailText v) = 0.99%Q.
Proof.
  destruct v as [| | | |s|]; try (split; discriminate).
  destruct s as [|a s]; [split; discriminate|].
  rewrite formatEmailText_string by discriminate. cbn [isValid_of confidence_of].
  apply validateEmail_valid_iff.
Qed.

Lemma is_js_space_lower c : is_js_space (lower_char c) = is_js_space c.
Proof. all_chars c; vm_compute; reflexivity. Qed.

Lemma lower_char_idem c : lower_char (lower_char c) = lower_char c.
Proof. all_chars c; vm_compute; reflexivity. Qed.

Lemma drop_while_map (f : ascii -> ascii) p s :
  (forall c, p (f c) = p c) -> drop_while p (map f s) = map f (drop_while p s).
Proof.
  intros Hf. induction s as [|c s IH]; [reflexivity|].
  simpl. rewrite Hf. destruct (p c); [exact IH | reflexivity].
Qed.

Lemma trim_lower s : trim (map lower_char s) = map lower_char (trim s).
Proof.
  unfold trim. rewrite (drop_while_map _ _ _ is_js_space_lower), <- map_rev.
  rewrite (drop_while_map _ _ _ is_js_space_lower), map_rev. reflexivity.
Qed.

Lemma canonicalize_lower s : canonicalize (toLowerCase s) = canonicalize s.
Proof.
  unfold canonicalize, removeDiacritics, toLowerCase.
  rewrite trim_lower, map_map. apply map_ext, lower_char_idem.
Qed.

(** X5: lower-casing the input first changes nothing but the echoed
    [input] field: the parse is case-insensitive. *)
Theorem formatEmailText_case_insensitive s :
  formatEmailText (JString (toLowerCase s)) =
  set_input (toLowerCase s) (formatEmailText (JString s)).
Proof.
  destruct s as [|a s]; [reflexivity|].
  rewrite !formatEmailText_string by discriminate.
  rewrite canonicalize_lower. reflexivity.
Qed.

Lemma in_includes c s : In c s -> includes c s = true.
Proof.
  intros H. unfold includes. apply existsb_exists. exists c. split; [exact H | apply Ascii.eqb_refl].
Qed.

Lemma finalize_at_includes y : In at_sign (finalize y) -> includes at_sign y = true.
Proof.
  intros H. destruct (includes at_sign y) eqn:E; [reflexivity|].
  unfold finalize in H. rewrite E in H. apply strip_dots_incl in H.
  exact (False_ind _ (includes_false_not_in _ _ E H)).
Qed.

Lemma keys_incl l1 l2 : forallb (set_has l2) l1 = true -> forall t, In t l1 -> In t l2.
Proof.
  intros H t Ht. rewrite forallb_forall in H. specialize (H t Ht).
  unfold set_has in H. apply existsb_exists in H as [x [Hx E]].
  apply str_eqb_true in E. subst. exact Hx.
Qed.

Lemma MAP_SINGLE4_agree t :
  t <> js "aroba" -> t <> js "arzroba" -> assoc t MAP_SINGLE4 = assoc t MAP_SINGLE.
Proof.
  intros H1 H2. destruct (in_dec (list_eq_dec ascii_dec) t (map fst MAP_SINGLE4)) as [Hk|Hk].
  - simpl in Hk. repeat destruct Hk as [Hk|Hk]; try contradiction; subst t;
      first [reflexivity | exfalso; apply H1; reflexivity | exfalso; apply H2; reflexivity].
  - rewrite !assoc_not_key; [reflexivity | | exact Hk].
    intros Hk'. apply Hk. refine (keys_incl _ _ _ t Hk'). vm_compute. reflexivity.
Qed.

Lemma MAP_SINGLE2_agree t :
  t <> js "aroba" -> t <> js "arrova" -> t <> js "arzroba" ->
  assoc t MAP_SINGLE2 = assoc t MAP_SINGLE.
Proof.
  intros H1 H2 H3. destruct (in_dec (list_eq_dec ascii_dec) t (map fst MAP_SINGLE2)) as [Hk|Hk].
  - simpl in Hk. repeat destruct Hk as [Hk|Hk]; try contradiction; subst t;
      first [reflexivity | exfalso; apply H1; reflexivity | exfalso; apply H2; reflexivity
            | exfalso; apply H3; reflexivity].
  - rewrite !assoc_not_key; [reflexivity | | exact Hk].
    intros Hk'. apply Hk. refine (keys_incl _ _ _ t Hk'). vm_compute. reflexivity.
Qed.

Lemma IGNORE2_app : IGNORE2 = IGNORE ++ [js "porfa"].
Proof. reflexivity. Qed.

Lemma set_has_IGNORE2 t : t <> js "porfa" -> set_has IGNORE2 t = set_has IGNORE t.
Proof.
  intros H. rewrite IGNORE2_app. unfold set_has. rewrite existsb_app. cbn [existsb].
  destruct (str_eqb t (js "porfa")) eqn:E; [apply str_eqb_true in E; contradiction|].
  rewrite !orb_false_r. reflexivity.
Qed.

Lemma single_step_with_seen ms t s :
  snd (single_step_with ms t s) = true -> s = true \/ fst (single_step_with ms t s) = js "@".
Proof.
  unfold single_step_with.
  destruct (map_single_get_with ms t) as [sym|];
    [|destruct (is_symbol_token t); simpl; auto].
  destruct (truthy sym); [destruct (is_at_sym sym); [destruct s; simpl; auto | simpl; auto]|].
  destruct (is_symbol_token t); simpl; auto.
Qed.

(** [seenAt] only becomes true when an "@" is appended to [out]. *)
Lemma rewrite_loop_seen ign ms toks :
  forall out s, (s = true -> In at_sign out) ->
  snd (rewrite_loop ign ms toks out s) = true -> In at_sign (fst (rewrite_loop ign ms toks out s)).
Proof.
  induction toks as [toks IH] using length_strong_ind. intros out s Hs.
  destruct toks as [|t rest]; [exact Hs|].
  assert (Happ : forall e, (s = true -> In at_sign (out ++ e)))
    by (intros e H; apply in_or_app; left; apply Hs, H).
  cbn [rewrite_loop]. destruct (set_has ign t); [apply IH; [simpl; lia | exact Hs]|].
  assert (Hstep : forall s' e, single_step_with ms t s = (e, s') ->
            s' = true -> In at_sign (out ++ e)).
  { intros s' e E Hs'. pose proof (single_step_with_seen ms t s) as H. rewrite E in H.
    destruct (H Hs') as [H1 | H1]; [apply Happ, H1|].
    simpl in H1. subst e. apply in_or_app. right. left. reflexivity. }
  destruct rest as [|next rest'].
  - destruct (single_step_with ms t s) as [e s'] eqn:E.
    apply IH; [simpl; lia | exact (Hstep s' e eq_refl)].
  - destruct (_ && str_eqb next _); [apply IH; [simpl; lia | apply Happ]|].
    destruct (_ && (_ || _)); [apply IH; [simpl; lia | apply Happ]|].
    destruct (single_step_with ms t s) as [e s'] eqn:E.
    apply IH; [simpl; lia | exact (Hstep s' e eq_refl)].
Qed.

(** X6: the Next.js variant's [formatEmailText] (its table adds "aroba"
    and "arzroba") gives the same result as the first one on every input
    with neither of these two tokens. *)
Theorem formatEmailText4_agrees s :
  (forall t, In t (tokenize (canonicalize s)) -> t <> js "aroba" /\ t <> js "arzroba") ->
  formatEmailText4 (JString s) = formatEmailText (JString s).
Proof.
  intros Ht. destruct s as [|a s]; [reflexivity|].
  rewrite formatEmailText_string by discriminate. unfold formatEmailText4.
  cbn [negb truthy_str]. rewrite rewrite_tokens_loop.
  rewrite (rewrite_loop_agree IGNORE MAP_SINGLE4 IGNORE MAP_SINGLE); [reflexivity|].
  intros t Hin. destruct (Ht t Hin) as [H1 H2].
  split; [reflexivity | exact (MAP_SINGLE4_agree t H1 H2)].
Qed.

Lemma formatEmailText4_agrees_witness :
  (forall t, In t (tokenize (canonicalize (js "Ana punto Ruiz arroba Correo punto es"))) ->
     t <> js "aroba" /\ t <> js "arzroba") /\
  formatEmailText4 (JString (js "Ana punto Ruiz arroba Correo punto es")) =
  formatEmailText (JString (js "Ana punto Ruiz arroba Correo punto es")).
Proof.
  assert (H : forall t, In t (tokenize (canonicalize (js "Ana punto Ruiz arroba Correo punto es"))) ->
                t <> js "aroba" /\ t <> js "arzroba").
  { intros t Ht. vm_compute in Ht.
    repeat destruct Ht as [Ht|Ht]; try contradiction; subst t; split; discriminate. }
  split; [exact H | exact (formatEmailText4_agrees _ H)].
Defined.

(** X7: in the second variant, "Estrategia 1" (run only when [seenAt]
    holds and the cleaned text has no "@") can never run: [seenAt] is only
    set when an "@" is appended, and the clean-up keeps an "@". *)
Theorem strategy1_unreachable ign ms toks :
  snd (rewrite_loop ign ms toks [] false) = true ->
  includes at_sign (pre_cleanup (fst (rewrite_loop ign ms toks [] false))) = true.
Proof.
  intros H. apply in_includes, pre_cleanup_at.
  apply rewrite_loop_seen; [discriminate | exact H].
Qed.

Lemma strategy1_unreachable_witness :
  snd (rewrite_loop IGNORE2 MAP_SINGLE2 (map js ["ana"; "aroba"; "mail"; "punto"; "es"]%string) [] false) = true /\
  includes at_sign (pre_cleanup (fst (rewrite_loop IGNORE2 MAP_SINGLE2
    (map js ["ana"; "aroba"; "mail"; "punto"; "es"]%string) [] false))) = true.
Proof.
  assert (H : snd (rewrite_loop IGNORE2 MAP_SINGLE2
                (map js ["ana"; "aroba"; "mail"; "punto"; "es"]%string) [] false) = true)
    by (vm_compute; reflexivity).
  split; [exact H | exact (strategy1_unreachable _ _ _ H)].
Defined.

Lemma formatEmailText2_email v :
  email_of (formatEmailText2 v) = [] \/ exists y, email_of (formatEmailText2 v) = finalize y.
Proof.
  destruct v as [| | | |s|]; try (left; reflexivity).
  destruct s as [|a s]; [left; reflexivity|]. right.
  unfold formatEmailText2. cbn [negb truthy_str].
  destruct (rewrite_loop IGNORE2 MAP_SINGLE2 _ [] false) as [out0 seenAt].
  eexists. reflexivity.
Qed.

(** X8: the second variant, fallback included, still yields at most one
    "@", and no part of its e-mail begins or ends with a dot. *)
Theorem formatEmailText2_shape v :
  count_occ ascii_dec (email_of (formatEmailText2 v)) at_sign <= 1 /\
  ((exists l d, email_of (formatEmailText2 v) = l ++ at_sign :: d /\
      ~ In at_sign l /\ ~ In at_sign d /\
      starts_with_dot l = false /\ ends_with_dot l = false /\
      starts_with_dot d = false /\ ends_with_dot d = false)
   \/ (~ In at_sign (email_of (formatEmailText2 v)) /\
       starts_with_dot (email_of (formatEmailText2 v)) = false /\
       ends_with_dot (email_of (formatEmailText2 v)) = false)).
Proof.
  destruct (formatEmailText2_email v) as [-> | [y ->]].
  - split; [simpl; lia|]. right. repeat split. intros [].
  - split; [|apply finalize_edges].
    destruct (finalize_edges y) as [[l [d (-> & Hl & Hd & _)]] | [Hno _]].
    + rewrite count_occ_app.
      rewrite (proj1 (count_occ_not_In ascii_dec l at_sign) Hl). simpl.
      rewrite (proj1 (count_occ_not_In ascii_dec d at_sign) Hd).
      destruct (ascii_dec at_sign at_sign); [lia | contradiction].
    + rewrite (proj1 (count_occ_not_In ascii_dec _ at_sign) Hno). lia.
Qed.

(** X9: when the whole cleaned text already matches the domain group
    [[a-z0-9-]+\.[a-z]{2,}(\.[a-z]{2,})?] (as "ventasempresa.com" does),
    the lazy group 1 is empty and the fallback returns the text unchanged:
    no "@" is inserted. *)
Theorem fallback_whole_domain_noop out :
  domain_suffix out = true -> fallback_strategy out = out.
Proof.
  intros H. unfold fallback_strategy.
  destruct out as [|c r]; [unfold fallback_match, lazy_scan; rewrite H; reflexivity|].
  unfold fallback_match, lazy_scan. rewrite H. reflexivity.
Qed.

Lemma fallback_whole_domain_noop_witness :
  domain_suffix (js "ventasempresa.com") = true /\
  fallback_strategy (js "ventasempresa.com") = js "ventasempresa.com" /\
  email_of (formatEmailText2 (JString (js "ventas empresa punto com"))) = js "ventasempresa.com" /\
  confidence_of (formatEmailText2 (JString (js "ventas empresa punto com"))) = 0.4%Q.
Proof.
  assert (H : domain_suffix (js "ventasempresa.com") = true) by (vm_compute; reflexivity).
  split; [exact H|]. split; [exact (fallback_whole_domain_noop _ H)|].
  split; vm_compute; reflexivity.
Defined.

(** X10: on an input without the tokens the second variant adds
    ("porfa", "aroba", "arrova", "arzroba"), whenever the first variant's
    e-mail has an "@" the second variant gives the same result. *)
Theorem formatEmailText2_agrees s :
  (forall t, In t (tokenize (canonicalize s)) ->
     t <> js "porfa" /\ t <> js "aroba" /\ t <> js "arrova" /\ t <> js "arzroba") ->
  In at_sign (email_of (formatEmailText (JString s))) ->
  formatEmailText2 (JString s) = formatEmailText (JString s).
Proof.
  intros Ht Hat. destruct s as [|a s]; [destruct Hat|].
  rewrite formatEmailText_string in * by discriminate. cbn [email_of] in Hat.
  rewrite rewrite_tokens_loop in *.
  unfold formatEmailText2. cbn [negb truthy_str].
  rewrite (rewrite_loop_agree IGNORE2 MAP_SINGLE2 IGNORE MAP_SINGLE).
  - destruct (rewrite_loop IGNORE MAP_SINGLE _ [] false) as [out0 seenAt].
    cbn [fst] in *. rewrite cleanup_finalize in *.
    rewrite (finalize_at_includes _ Hat). reflexivity.
  - intros t Hin. destruct (Ht t Hin) as (H1 & H2 & H3 & H4).
    split; [exact (set_has_IGNORE2 t H1) | exact (MAP_SINGLE2_agree t H2 H3 H4)].
Qed.

Lemma formatEmailText2_agrees_witness :
  (forall t, In t (tokenize (canonicalize (js "juan guion bajo perez arroba gmail punto com"))) ->
     t <> js "porfa" /\ t <> js "aroba" /\ t <> js "arrova" /\ t <> js "arzroba") /\
  In at_sign (email_of (formatEmailText (JString (js "juan guion bajo perez arroba gmail punto com")))) /\
  formatEmailText2 (JString (js "juan guion bajo perez arroba gmail punto com")) =
  formatEmailText (JString (js "juan guion bajo perez arroba gmail punto com")).
Proof.
  assert (H1 : forall t, In t (tokenize (canonicalize (js "juan guion bajo perez arroba gmail punto com"))) ->
     t <> js "porfa" /\ t <> js "aroba" /\ t <> js "arrova" /\ t <> js "arzroba").
  { intros t Ht. vm_compute in Ht.
    repeat destruct Ht as [Ht|Ht]; try contradiction; subst t; repeat split; discriminate. }
  assert (H2 : In at_sign (email_of (formatEmailText (JString (js "juan guion bajo perez arroba gmail punto com")))))
    by (vm_compute; tauto).
  split; [exact H1|]. split; [exact H2 | exact (formatEmailText2_agrees _ H1 H2)].
Defined.

Lemma str_eqb_refl a : str_eqb a a = true.
Proof. unfold str_eqb. destruct (list_eq_dec ascii_dec a a); congruence. Qed.

Lemma str_eqb_false a b : str_eqb a b = false -> a <> b.
Proof. intros H <-. rewrite str_eqb_refl in H. discriminate. Qed.

Ltac split_ifs :=
  repeat match goal with
  | |- context [if ?b then _ else _] => destruct b
  | |- context [match ?x with _ => _ end] => destruct x
  end.

(** X12: in the handlers of lines 82-108, 243-276 and 431-468, the
    status is 204 exactly for OPTIONS and 405 exactly for a method other
    than GET, POST and OPTIONS. *)
Theorem handler_method_status parse fmt req :
  (status (handler parse fmt req) = 204 <-> req_method req = js "OPTIONS") /\
  (status (handler parse fmt req) = 405 <->
     ~ In (req_method req) [js "GET"; js "POST"; js "OPTIONS"]) /\
  (status (handler3 parse req) = 204 <-> req_method req = js "OPTIONS") /\
  (status (handler3 parse req) = 405 <->
     ~ In (req_method req) [js "GET"; js "POST"; js "OPTIONS"]).
Proof.
  unfold handler, handler3.
  destruct (str_eqb (req_method req) (js "OPTIONS")) eqn:Eo.
  { apply str_eqb_true in Eo. rewrite Eo. cbn [status respond].
    repeat split; intros H; try reflexivity; try discriminate.
    all: exfalso; apply H; right; right; left; reflexivity. }
  apply str_eqb_false in Eo.
  destruct (str_eqb (req_method req) (js "GET")) eqn:Eg.
  { apply str_eqb_true in Eg. rewrite Eg in *.
    repeat split; split_ifs; cbn [status respond]; intros H; try discriminate; try contradiction;
      exfalso; apply H; simpl; tauto. }
  apply str_eqb_false in Eg.
  destruct (str_eqb (req_method req) (js "POST")) eqn:Ep.
  { apply str_eqb_true in Ep. rewrite Ep in *.
    repeat split; split_ifs; cbn [status respond]; intros H; try discriminate; try contradiction;
      exfalso; apply H; simpl; tauto. }
  apply str_eqb_false in Ep. cbn [status respond].
  repeat split; intros H; try discriminate; try contradiction.
  - intros [H'|[H'|[H'|[]]]]; congruence.
  - intros [H'|[H'|[H'|[]]]]; congruence.
Qed.

Lemma or_empty_truthy v : truthy_in v = true -> or_empty_in v = v.
Proof. unfold or_empty_in. intros ->. reflexivity. Qed.

Lemma or_empty_falsy v : truthy_in v = false -> truthy_in (or_empty_in v) = false.
Proof. unfold or_empty_in. intros ->. reflexivity. Qed.

(** X13: a GET never reaches the body parser nor the 500 branch: it
    answers 200 with the formatted [req.query.text] when that value is
    truthy, and 400 otherwise. *)
Theorem handler_GET parse fmt req :
  req_method req = js "GET" ->
  handler parse fmt req =
    let q := match req_query req with Some v => v | None => JUndefined end in
    if truthy_in q then respond 200 (JsonResult (fmt q))
    else respond 400 (JsonError msg_missing_text).
Proof.
  intros Hm. unfold handler. rewrite Hm.
  change (str_eqb (js "GET") (js "OPTIONS")) with false. rewrite str_eqb_refl. cbn zeta iota.
  destruct (req_query req) as [q|]; [|reflexivity].
  destruct (truthy_in q) eqn:E.
  - rewrite (or_empty_truthy _ E), E. reflexivity.
  - rewrite (or_empty_falsy _ E). reflexivity.
Qed.

Lemma handler_GET_witness :
  req_method {| req_method := js "GET"; req_query := Some (JString (js "ana arroba mail punto es"));
                req_body := NoBody [] |} = js "GET" /\
  handler (fun _ => JSONNull) formatEmailText
    {| req_method := js "GET"; req_query := Some (JString (js "ana arroba mail punto es"));
       req_body := NoBody [] |} =
    respond 200 (JsonResult (formatEmailText (JString (js "ana arroba mail punto es")))).
Proof.
  assert (H : req_method {| req_method := js "GET";
                req_query := Some (JString (js "ana arroba mail punto es"));
                req_body := NoBody [] |} = js "GET") by reflexivity.
  split; [exact H|]. rewrite (handler_GET _ _ _ H). reflexivity.
Defined.

(** X14: in the handlers of lines 82-108 and 243-276 a POST whose [text]
    is truthy but not a string (a number, [true], an object) gets status
    200 with the "Empty input" error object. *)
Theorem handler_POST_non_string parse req v :
  req_method req = js "POST" ->
  (req_body req = Body v \/
   exists raw, req_body req = NoBody raw /\
               parse (if truthy_str raw then raw else js "{}") = JSONText v) ->
  truthy_in v = true -> is_string_in v = false ->
  handler parse formatEmailText req =
    respond 200 (JsonResult (ErrorResult [] false 0.0%Q (js "Empty input"))) /\
  handler parse formatEmailText2 req =
    respond 200 (JsonResult (ErrorResult [] false 0.0%Q (js "Empty input"))).
Proof.
  intros Hm Hb Ht Hs. unfold handler. rewrite Hm.
  change (str_eqb (js "POST") (js "OPTIONS")) with false.
  change (str_eqb (js "POST") (js "GET")) with false.
  rewrite str_eqb_refl. cbn zeta iota.
  destruct Hb as [-> | [raw [-> Hp]]]; [|rewrite Hp]; cbn iota;
    rewrite (or_empty_truthy _ Ht), Ht; cbn [negb];
    destruct v as [| | | |s|]; try discriminate Hs; split; reflexivity.
Qed.

Lemma handler_POST_non_string_witness :
  req_method {| req_method := js "POST"; req_query := None; req_body := Body (JNumber 5) |}
    = js "POST" /\
  (req_body {| req_method := js "POST"; req_query := None; req_body := Body (JNumber 5) |}
     = Body (JNumber 5) \/
   exists raw, req_body {| req_method := js "POST"; req_query := None;
                           req_body := Body (JNumber 5) |} = NoBody raw /\
     (fun _ : jsstr => JSONNull) (if truthy_str raw then raw else js "{}") = JSONText (JNumber 5)) /\
  truthy_in (JNumber 5) = true /\ is_string_in (JNumber 5) = false /\
  handler (fun _ => JSONNull) formatEmailText
    {| req_method := js "POST"; req_query := None; req_body := Body (JNumber 5) |} =
    respond 200 (JsonResult (ErrorResult [] false 0.0%Q (js "Empty input"))).
Proof.
  assert (H1 : req_method {| req_method := js "POST"; req_query := None;
                             req_body := Body (JNumber 5) |} = js "POST") by reflexivity.
  assert (H2 : req_body {| req_method := js "POST"; req_query := None;
                           req_body := Body (JNumber 5) |} = Body (JNumber 5) \/
     exists raw, req_body {| req_method := js "POST"; req_query := None;
                             req_body := Body (JNumber 5) |} = NoBody raw /\
       (fun _ : jsstr => JSONNull) (if truthy_str raw then raw else js "{}") = JSONText (JNumber 5))
    by (left; reflexivity).
  assert (H3 : truthy_in (JNumber 5) = true) by reflexivity.
  assert (H4 : is_string_in (JNumber 5) = false) by reflexivity.
  split; [exact H1|]. split; [exact H2|]. split; [exact H3|]. split; [exact H4|].
  exact (proj1 (handler_POST_non_string _ _ _ H1 H2 H3 H4)).
Defined.

(** X15: in the handlers of lines 82-108 and 243-276, a POST without a
    parsed body whose raw text makes [JSON.parse] throw gets status 500
    with [String(e)] as details. *)
Theorem handler_POST_parse_error parse fmt req raw e :
  req_method req = js "POST" -> req_body req = NoBody raw ->
  parse (if truthy_str raw then raw else js "{}") = JSONThrows e ->
  handler parse fmt req = respond 500 (JsonErrorDetails (js "Internal Server Error") e).
Proof.
  intros Hm Hb Hp. unfold handler. rewrite Hm.
  change (str_eqb (js "POST") (js "OPTIONS")) with false.
  change (str_eqb (js "POST") (js "GET")) with false.
  rewrite str_eqb_refl. cbn zeta iota. rewrite Hb, Hp. reflexivity.
Qed.

Lemma handler_POST_parse_error_witness :
  req_method {| req_method := js "POST"; req_query := None; req_body := NoBody (js "{text:") |}
    = js "POST" /\
  req_body {| req_method := js "POST"; req_query := None; req_body := NoBody (js "{text:") |}
    = NoBody (js "{text:") /\
  (fun raw => if str_eqb raw (js "{text:") then JSONThrows (js "SyntaxError") else JSONNull)
    (if truthy_str (js "{text:") then js "{text:" else js "{}") = JSONThrows (js "SyntaxError") /\
  handler (fun raw => if str_eqb raw (js "{text:") then JSONThrows (js "SyntaxError") else JSONNull)
    formatEmailText
    {| req_method := js "POST"; req_query := None; req_body := NoBody (js "{text:") |} =
  respond 500 (JsonErrorDetails (js "Internal Server Error") (js "SyntaxError")).
Proof.
  assert (H1 : req_method {| req_method := js "POST"; req_query := None;
                             req_body := NoBody (js "{text:") |} = js "POST") by reflexivity.
  assert (H2 : req_body {| req_method := js "POST"; req_query := None;
                           req_body := NoBody (js "{text:") |} = NoBody (js "{text:"))
    by reflexivity.
  assert (H3 : (fun raw => if str_eqb raw (js "{text:") then JSONThrows (js "SyntaxError") else JSONNull)
    (if truthy_str (js "{text:") then js "{text:" else js "{}") = JSONThrows (js "SyntaxError"))
    by (vm_compute; reflexivity).
  split; [exact H1|]. split; [exact H2|]. split; [exact H3|].
  exact (handler_POST_parse_error _ _ _ _ _ H1 H2 H3).
Defined.


(** X17: the handler of lines 431-468 answers 400 to a POST whose [text],
    read from the parsed [req.body] or from [JSON.parse] of the raw body,
    is not a string (the handler of lines 82-108 answers 200 to a truthy
    one). *)
Theorem handler3_POST_non_string parse req v :
  req_method req = js "POST" ->
  (req_body req = Body v \/
   exists raw, req_body req = NoBody raw /\ parse raw = JSONText v) ->
  is_string_in v = false ->
  handler3 parse req = respond 400 (JsonError msg_missing_text).
Proof.
  intros Hm Hb Hs. unfold handler3. rewrite Hm.
  change (str_eqb (js "POST") (js "OPTIONS")) with false.
  change (str_eqb (js "POST") (js "GET")) with false.
  rewrite str_eqb_refl. cbn zeta iota.
  destruct Hb as [-> | [raw [-> Hp]]]; [|rewrite Hp]; cbn iota;
    rewrite Hs, orb_true_r; reflexivity.
Qed.

Lemma handler3_POST_non_string_witness :
  req_method {| req_method := js "POST"; req_query := None; req_body := NoBody (js "{text: 5}") |}
    = js "POST" /\
  (req_body {| req_method := js "POST"; req_query := None; req_body := NoBody (js "{text: 5}") |}
     = Body (JNumber 5) \/
   exists raw, req_body {| req_method := js "POST"; req_query := None;
                           req_body := NoBody (js "{text: 5}") |} = NoBody raw /\
     (fun _ : jsstr => JSONText (JNumber 5)) raw = JSONText (JNumber 5)) /\
  is_string_in (JNumber 5) = false /\
  handler3 (fun _ => JSONText (JNumber 5))
    {| req_method := js "POST"; req_query := None; req_body := NoBody (js "{text: 5}") |} =
    respond 400 (JsonError msg_missing_text).
Proof.
  assert (H1 : req_method {| req_method := js "POST"; req_query := None;
                             req_body := NoBody (js "{text: 5}") |} = js "POST") by reflexivity.
  assert (H2 : req_body {| req_method := js "POST"; req_query := None;
                           req_body := NoBody (js "{text: 5}") |} = Body (JNumber 5) \/
     exists raw, req_body {| req_method := js "POST"; req_query := None;
                             req_body := NoBody (js "{text: 5}") |} = NoBody raw /\
       (fun _ : jsstr => JSONText (JNumber 5)) raw = JSONText (JNumber 5))
    by (right; exists (js "{text: 5}"); split; reflexivity).
  assert (H3 : is_string_in (JNumber 5) = false) by reflexivity.
  split; [exact H1|]. split; [exact H2|]. split; [exact H3|].
  exact (handler3_POST_non_string _ _ _ H1 H2 H3).
Defined.

(** X18: the Next.js routes (lines 555-567): a GET answers 200 exactly
    when the parameter is present and non-empty, a body that is not JSON
    becomes [{}] and gets 400, and a [null] body makes the route throw. *)
Theorem next_routes_errors param e :
  (status (GET4 param) = 200 <-> exists s, param = Some s /\ s <> []) /\
  (status (GET4 param) = 400 <-> param = None \/ param = Some []) /\
  POST4 (JSONThrows e) = Some (respond 400 (JsonError msg_missing_text4)) /\
  POST4 JSONNull = None.
Proof.
  split; [|split; [|split; reflexivity]]; unfold GET4.
  - destruct param as [[|a s]|]; cbn; split.
    + discriminate.
    + intros [s [Hs Hn]]. injection Hs as <-. contradiction.
    + intros _. exists (a :: s). split; [reflexivity | discriminate].
    + reflexivity.
    + discriminate.
    + intros [s [Hs _]]. discriminate.
  - destruct param as [[|a s]|]; cbn; split.
    + intros _; right; reflexivity.
    + reflexivity.
    + discriminate.
    + intros [H|H]; discriminate.
    + intros _; left; reflexivity.
    + reflexivity.
Qed.



Lemma email_char_not_at c : is_email_char c = true -> is_at c = false.
Proof. all_chars c; vm_compute; congruence. Qed.

Lemma strip_invalid_no_at t : forallb (fun c => negb (is_at c)) (strip_invalid t) = true.
Proof.
  induction t as [|a t IH]; [reflexivity|]. unfold strip_invalid in *. simpl.
  destruct (is_email_char a) eqn:E; [|exact IH].
  simpl. rewrite (email_char_not_at _ E), IH. reflexivity.
Qed.

Lemma symbol_token_no_at t : is_symbol_token t = true -> forallb (fun c => negb (is_at c)) t = true.
Proof.
  unfold is_symbol_token, set_has. intros H.
  apply existsb_exists in H as [x [Hx E]]. apply str_eqb_true in E. subst x.
  simpl in Hx. repeat destruct Hx as [<-|Hx]; try reflexivity. destruct Hx.
Qed.

Lemma prototype_values_no_at :
  forallb (fun kv => forallb (fun c => negb (is_at c)) (to_str (snd kv))) Object_prototype = true.
Proof. vm_compute. reflexivity. Qed.

(** A step appends an "@" only through a table value that holds one. *)
Lemma single_step_with_no_at (ms : list (jsstr * jsstr)) t s :
  (forall v, assoc t ms = Some v -> forallb (fun c => negb (is_at c)) v = true) ->
  forallb (fun c => negb (is_at c)) (fst (single_step_with ms t s)) = true.
Proof.
  intros Hv. unfold single_step_with, map_single_get_with.
  destruct (assoc t ms) as [v|] eqn:E.
  - specialize (Hv v eq_refl). cbn [truthy is_at_sym to_str].
    destruct (truthy_str v);
      [destruct (str_eqb v (js "@")) eqn:Ea; [apply str_eqb_true in Ea; subst v; discriminate Hv | exact Hv]|].
    destruct (is_symbol_token t) eqn:Hs; [apply symbol_token_no_at, Hs | apply strip_invalid_no_at].
  - destruct (assoc t Object_prototype) as [o|] eqn:Eo.
    + pose proof prototype_values_no_at as Hp. rewrite forallb_forall in Hp.
      assert (Ho : In (t, o) Object_prototype).
      { clear -Eo. induction Object_prototype as [|[k w] l IH]; simpl in *; [discriminate|].
        destruct (str_eqb t k) eqn:Ek; [|right; apply IH, Eo].
        injection Eo as <-. apply str_eqb_true in Ek. subst. left. reflexivity. }
      specialize (Hp _ Ho). cbn [snd] in Hp.
      destruct o as [v|v]; cbn [truthy is_at_sym to_str] in *.
      * destruct (truthy_str v);
          [destruct (str_eqb v (js "@")) eqn:Ea; [apply str_eqb_true in Ea; subst v; discriminate Hp | exact Hp]|].
        destruct (is_symbol_token t) eqn:Hs; [apply symbol_token_no_at, Hs | apply strip_invalid_no_at].
      * exact Hp.
    + destruct (is_symbol_token t) eqn:Hs; [apply symbol_token_no_at, Hs | apply strip_invalid_no_at].
Qed.

Lemma MAP_SINGLE_at_keys t v :
  assoc t MAP_SINGLE = Some v -> ~ In t (map js ["@"; "arroba"; "at"]%string) ->
  forallb (fun c => negb (is_at c)) v = true.
Proof.
  intros E Hn. pose proof (assoc_key _ _ _ E) as Hk.
  simpl in Hk. repeat destruct Hk as [Hk|Hk]; try contradiction; subst t;
    first [exfalso; apply Hn; simpl; tauto | injection E as <-; reflexivity].
Qed.

(** X20: an "@" in the e-mail only ever comes from one of the tokens
    "@", "arroba" or "at": typed as one word, "juan@gmail.com" loses its
    "@" (the token is filtered by [/[^a-z0-9._+-]/g]). *)
Theorem email_at_only_from_at_words s :
  (forall t, In t (tokenize (canonicalize s)) -> ~ In t (map js ["@"; "arroba"; "at"]%string)) ->
  ~ In at_sign (email_of (formatEmailText (JString s))).
Proof.
  intros Ht. destruct s as [|a s]; [intros []|].
  rewrite formatEmailText_string by discriminate. cbn [email_of].
  rewrite cleanup_finalize, rewrite_tokens_loop.
  set (out := fst (rewrite_loop IGNORE MAP_SINGLE _ [] false)).
  assert (Hout : forallb (fun c => negb (is_at c)) out = true).
  { apply rewrite_loop_forallb; [reflexivity | reflexivity | | reflexivity].
    intros t s' Hin. apply single_step_with_no_at.
    intros v E. exact (MAP_SINGLE_at_keys t v E (Ht t Hin)). }
  intros H. apply finalize_at_includes, includes_true_in, pre_cleanup_incl in H.
  rewrite forallb_forall in Hout. specialize (Hout _ H). discriminate Hout.
Qed.

Lemma email_at_only_from_at_words_witness :
  (forall t, In t (tokenize (canonicalize (js "juan@gmail.com"))) ->
     ~ In t (map js ["@"; "arroba"; "at"]%string)) /\
  ~ In at_sign (email_of (formatEmailText (JString (js "juan@gmail.com")))) /\
  email_of (formatEmailText (JString (js "juan@gmail.com"))) = js "juangmail.com".
Proof.
  assert (H : forall t, In t (tokenize (canonicalize (js "juan@gmail.com"))) ->
                ~ In t (map js ["@"; "arroba"; "at"]%string)).
  { intros t Ht. vm_compute in Ht. destruct Ht as [<-|[]].
    intros Hk. vm_compute in Hk. repeat destruct Hk as [Hk|Hk]; try discriminate Hk; exact Hk. }
  split; [exact H|]. split; [exact (email_at_only_from_at_words _ H) | vm_compute; reflexivity].
Defined.

Lemma concat_split_ws_aux cur b s :
  List.concat (split_ws_aux cur b s) = rev cur ++ filter (fun c => negb (is_js_space c)) s.
Proof.
  revert cur b; induction s as [|c s IH]; intros cur b; simpl.
  - rewrite !app_nil_r. reflexivity.
  - destruct (is_js_space c); [destruct b|]; simpl.
    + apply IH.
    + rewrite IH. reflexivity.
    + rewrite IH. simpl. rewrite <- app_assoc. reflexivity.
Qed.

Lemma concat_filter_truthy (l : list jsstr) : List.concat (filter truthy_str l) = List.concat l.
Proof. induction l as [|[|c t] l IH]; simpl; [reflexivity | exact IH | rewrite IH; reflexivity]. Qed.

Lemma split_ws_aux_no_space cur b s :
  forallb (fun c => negb (is_js_space c)) cur = true ->
  Forall (fun t => forallb (fun c => negb (is_js_space c)) t = true) (split_ws_aux cur b s).
Proof.
  revert cur b; induction s as [|c s IH]; intros cur b Hc; simpl.
  - constructor; [|constructor]. rewrite forallb_forall in *. intros x Hx. apply Hc, in_rev, Hx.
  - destruct (is_js_space c) eqn:E; [destruct b|].
    + apply IH, Hc.
    + constructor; [|apply IH; reflexivity].
      rewrite forallb_forall in *. intros x Hx. apply Hc, in_rev, Hx.
    + apply IH. simpl. rewrite E, Hc. reflexivity.
Qed.

(** X21: [s.split(/\s+/).filter(Boolean)] cuts [s] into non-empty tokens
    without whitespace whose concatenation is [s] with its whitespace
    removed. *)
Theorem tokenize_round_trip s :
  List.concat (tokenize s) = filter (fun c => negb (is_js_space c)) s /\
  Forall (fun t => t <> [] /\ forallb (fun c => negb (is_js_space c)) t = true) (tokenize s).
Proof.
  unfold tokenize, split_ws. split.
  - rewrite concat_filter_truthy, concat_split_ws_aux. reflexivity.
  - pose proof (split_ws_aux_no_space [] false s eq_refl) as H.
    rewrite Forall_forall in *. intros t Ht. apply filter_In in Ht as [Ht Hn].
    split; [destruct t; [discriminate | congruence] | exact (H t Ht)].
Qed.

Lemma lazy_scan_split pre rest m1 m2 :
  lazy_scan pre rest = Some (m1, m2) -> rev pre ++ rest = m1 ++ m2.
Proof.
  revert pre; induction rest as [|c r IH]; intros pre H; simpl in H.
  - discriminate H.
  - destruct (domain_suffix (c :: r)); [injection H as <- <-; reflexivity|].
    destruct (is_line_terminator c); [discriminate|].
    apply IH in H. simpl in H. rewrite <- app_assoc in H. exact H.
Qed.

Lemma fallback_match_split s m1 m2 :
  fallback_match s = Some (m1, m2) -> exists k, s = k ++ m1 ++ m2.
Proof.
  induction s as [|c r IH]; intros H; cbn [fallback_match] in H.
  - vm_compute in H. discriminate H.
  - destruct (lazy_scan [] (c :: r)) as [m|] eqn:E.
    + injection H as ->. exists []. exact (lazy_scan_split _ _ _ _ E).
    + destruct (IH H) as [k ->]. exists (c :: k). reflexivity.
Qed.

(** The fallback only moves characters of the text around an inserted "@". *)
Lemma fallback_strategy_incl out : incl (fallback_strategy out) (at_sign :: out).
Proof.
  unfold fallback_strategy. destruct (fallback_match out) as [[m1 m2]|] eqn:E;
    [|intros x Hx; right; exact Hx].
  destruct (fallback_match_split _ _ _ E) as [k ->].
  destruct (truthy_str _ && truthy_str _); [|intros x Hx; right; exact Hx].
  intros x Hx. apply in_app_or in Hx as [Hx|[<-|Hx]]; [| left; reflexivity |].
  - apply in_rev, drop_while_incl, in_rev in Hx. right.
    apply in_or_app; right; apply in_or_app; left; exact Hx.
  - apply drop_while_incl in Hx. right.
    apply in_or_app; right; apply in_or_app; right; exact Hx.
Qed.

Lemma formatEmailText2_email_incl s :
  s <> [] ->
  incl (email_of (formatEmailText2 (JString s)))
       (at_sign :: fst (rewrite_loop IGNORE2 MAP_SINGLE2 (tokenize (canonicalize s)) [] false)).
Proof.
  intros Hs. destruct s as [|a s]; [congruence|].
  unfold formatEmailText2. cbn [negb truthy_str].
  destruct (rewrite_loop IGNORE2 MAP_SINGLE2 _ [] false) as [out0 seenAt]. cbn [email_of fst].
  assert (Hp : incl (pre_cleanup out0) (at_sign :: out0))
    by (intros x Hx; right; apply pre_cleanup_incl, Hx).
  assert (Hf : forall y, incl y (at_sign :: out0) -> incl (fallback_strategy y) (at_sign :: out0)).
  { intros y Hy x Hx. apply fallback_strategy_incl in Hx as [<-|Hx]; [left; reflexivity | apply Hy, Hx]. }
  intros x Hx. apply finalize_incl in Hx. revert x Hx.
  destruct (negb (includes at_sign (pre_cleanup out0))); [|exact Hp].
  destruct (negb (includes at_sign (if seenAt then _ else _)));
    destruct seenAt; repeat apply Hf; exact Hp.
Qed.

Lemma MAP_SINGLE2_values_chars :
  forallb (forallb (fun c => is_email_char c || is_at c)) (map snd MAP_SINGLE2) = true.
Proof. vm_compute. reflexivity. Qed.

(** X22: the second variant, whose fallback re-cuts the text around a new
    "@", keeps the guarantee of X3: unless a token is "constructor" or
    "__proto__", its e-mail is made of [a-z0-9._+-] and "@" only. *)
Theorem formatEmailText2_chars s :
  (forall t, In t (tokenize (canonicalize s)) ->
     t <> js "constructor" /\ t <> js "__proto__") ->
  forallb (fun c => is_email_char c || is_at c) (email_of (formatEmailText2 (JString s))) = true.
Proof.
  intros Ht. destruct s as [|a s]; [reflexivity|].
  apply forallb_forall. intros c Hc.
  assert (Hs : a :: s <> []) by discriminate.
  apply (formatEmailText2_email_incl _ Hs) in Hc as [<-|Hc]; [reflexivity|].
  revert c Hc. apply forallb_forall.
  apply rewrite_loop_forallb; [reflexivity | reflexivity | | reflexivity].
  intros t s' Hin. apply single_step_with_chars; [exact MAP_SINGLE2_values_chars|].
  destruct (Ht t Hin) as [H1 H2]. apply prototype_miss; [|exact H1 | exact H2].
  intros c Hc. exact (tokens_lower _ _ _ Hin Hc).
Qed.

Lemma formatEmailText2_chars_witness :
  (forall t, In t (tokenize (canonicalize (js "Ventas Guion Medio Norte punto Empresa punto COM"))) ->
     t <> js "constructor" /\ t <> js "__proto__") /\
  forallb (fun c => is_email_char c || is_at c)
    (email_of (formatEmailText2 (JString (js "Ventas Guion Medio Norte punto Empresa punto COM")))) = true.
Proof.
  assert (H : forall t, In t (tokenize (canonicalize (js "Ventas Guion Medio Norte punto Empresa punto COM"))) ->
                t <> js "constructor" /\ t <> js "__proto__").
  { intros t Ht. vm_compute in Ht.
    repeat destruct Ht as [Ht|Ht]; try contradiction; subst t; split; discriminate. }
  split; [exact H | exact (formatEmailText2_chars _ H)].
Defined.

(** C6: for every candidate the validator is given (the output of the
    clean-up of lines 53-63, whatever the rewriter produced) that contains
    an "@", [domainOk] of the text after the first "@" holds exactly when
    that text is one or more groups of [[a-z0-9-]] separated by single
    dots, then a final dot and a top-level label of at least two letters
    (case-insensitive), with no "..". *)
Theorem domainOk_on_candidates out0 :
  In at_sign (cleanup out0) ->
  (domainOk (v_domain (validateEmail (cleanup out0))) = true <->
   spec_domain_shape (v_domain (validateEmail (cleanup out0)))).
Proof.
  rewrite cleanup_finalize. intros Hin.
  destruct (finalize_edges (pre_cleanup out0))
    as [[l [d [He [Hl [_ [_ [_ [Hd _]]]]]]]] | [Hn _]]; [|contradiction].
  rewrite He. change (l ++ at_sign :: d) with (l ++ [at_sign] ++ d).
  rewrite (validateEmail_domain_split _ _ Hl), domainOk_shape. split.
  - intros [lead [gs [t [[-> | ->] [Hdq [Hg [Ht Hdd]]]]]]].
    + exists gs, t. simpl in Hdq. exact (conj Hdq (conj Hg (conj Ht Hdd))).
    + subst d. discriminate Hd.
  - intros [gs [t [Hdq [Hg [Ht Hdd]]]]].
    exists [], gs, t. exact (conj (or_introl eq_refl) (conj Hdq (conj Hg (conj Ht Hdd)))).
Qed.

Lemma domainOk_on_candidates_witness :
  In at_sign (cleanup (js "ana.@..mail.com")) /\
  (domainOk (v_domain (validateEmail (cleanup (js "ana.@..mail.com")))) = true <->
   spec_domain_shape (v_domain (validateEmail (cleanup (js "ana.@..mail.com"))))).
Proof.
  assert (H : In at_sign (cleanup (js "ana.@..mail.com"))) by (vm_compute; tauto).
  split; [exact H | exact (domainOk_on_candidates _ H)].
Defined.
